(** * pcm2mp3: PCM to MP3 pipeline controller (src/pcm2mp3.h)

    A shallow embedding of the class [pipelines::pcm2mp3] and of the part of
    GStreamer's interface it calls, followed by the properties of its
    timestamp bookkeeping, buffer validation, silence generation and
    start/stop life cycle.

    Conventions.
    - [unsigned int] is a 32-bit and [std::size_t] / [guint64] a 64-bit
      unsigned integer; both are carried as [Z] with the wrap-around of each
      operation written out ([wrap32], [wrap64]).
    - [std::vector<char>] is a [list byte]; its [size()] is the list length
      (a real vector's size is below 2^63, so it converts to [guint64]
      unchanged).
    - A member function is a computation [M A] over the object: it returns,
      throws a [std::runtime_error] (the object survives, with every write
      made before the [throw]), runs into undefined behaviour, or blocks
      forever in [join].
    - GStreamer is a collaborator: what it answers is given by an [Engine],
      and every call made to it is recorded in the object's [history]. *)

From Stdlib Require Import ZArith List String Bool Lia.
From Stdlib Require Import Strings.Byte.
Import ListNotations.
Local Open Scope Z_scope.

(** ** Machine integers *)

Definition wrap32 (x : Z) : Z := x mod 2 ^ 32.
Definition wrap64 (x : Z) : Z := x mod 2 ^ 64.

Definition uint32 (x : Z) : Prop := 0 <= x < 2 ^ 32.

(** [data.size()] of a [std::vector<char>]. *)
Definition size (data : list byte) : Z := Z.of_nat (List.length data).

(** ** The GStreamer interface used by the class *)

Module Gst.

Definition G_MAXUINT64 : Z := 2 ^ 64 - 1.

(** [GST_SECOND]: one second in nanoseconds, the unit of [GstClockTime]. *)
Definition GST_SECOND : Z := 1000000000.

Inductive GstState : Type :=
| GST_STATE_VOID_PENDING
| GST_STATE_NULL
| GST_STATE_READY
| GST_STATE_PAUSED
| GST_STATE_PLAYING.

Inductive GstStateChangeReturn : Type :=
| GST_STATE_CHANGE_FAILURE
| GST_STATE_CHANGE_SUCCESS
| GST_STATE_CHANGE_ASYNC
| GST_STATE_CHANGE_NO_PREROLL.

Inductive GstFlowReturn : Type :=
| GST_FLOW_CUSTOM_SUCCESS
| GST_FLOW_OK
| GST_FLOW_NOT_LINKED
| GST_FLOW_FLUSHING
| GST_FLOW_EOS
| GST_FLOW_NOT_NEGOTIATED
| GST_FLOW_ERROR
| GST_FLOW_NOT_SUPPORTED
| GST_FLOW_CUSTOM_ERROR.

Definition change_failed (r : GstStateChangeReturn) : bool :=
  match r with GST_STATE_CHANGE_FAILURE => true | _ => false end.

Definition flow_ok (r : GstFlowReturn) : bool :=
  match r with GST_FLOW_OK => true | _ => false end.

(** [gst_flow_get_name]: GStreamer's table of names of flow returns. *)
Definition gst_flow_get_name (r : GstFlowReturn) : string :=
  match r with
  | GST_FLOW_CUSTOM_SUCCESS => "custom-success"
  | GST_FLOW_OK => "ok"
  | GST_FLOW_NOT_LINKED => "not-linked"
  | GST_FLOW_FLUSHING => "flushing"
  | GST_FLOW_EOS => "eos"
  | GST_FLOW_NOT_NEGOTIATED => "not-negotiated"
  | GST_FLOW_ERROR => "error"
  | GST_FLOW_NOT_SUPPORTED => "not-supported"
  | GST_FLOW_CUSTOM_ERROR => "custom-error"
  end%string.

(** [gst_util_uint64_scale (val, num, denom)], by GStreamer's contract:
    [val * num / denom] computed on 128 bits and rounded down;
    [G_MAXUINT64] when the quotient does not fit 64 bits, and also when
    [denom] is 0 (the function's precondition check returns it). *)
Definition gst_util_uint64_scale (val num denom : Z) : Z :=
  if denom =? 0 then G_MAXUINT64
  else
    let q := val * num / denom in
    if q <=? G_MAXUINT64 then q else G_MAXUINT64.

(** A [GstBuffer] as the class fills it: the wrapped bytes, [GST_BUFFER_PTS]
    and [GST_BUFFER_DURATION]. *)
Record GstBuffer : Type := mkBuffer {
  buf_data : list byte;
  buf_pts : Z;
  buf_duration : Z
}.

(** The calls the class makes to its collaborators, with what came back. *)
Inductive call : Type :=
| app_src_push_buffer (b : GstBuffer) (r : GstFlowReturn)
| element_set_state (target : GstState) (r : GstStateChangeReturn)
| thread_start
| thread_join.

(** What the collaborators answer, given everything called so far. *)
Record Engine : Type := mkEngine {
  pipeline_new_ok : bool;
  factory_make_ok : bool;
  link_many_ok : bool;
  set_state_reply : list call -> GstState -> GstStateChangeReturn;
  push_reply : list call -> GstBuffer -> GstFlowReturn;
  (* whether the consumer loop, once the stop flag is set, comes back from
     its pending [gst_app_sink_pull_sample] and ends *)
  consumer_ends : list call -> bool
}.

End Gst.
Import Gst.

(** ** The object *)

Record pcm2mp3 : Type := mk_pcm2mp3 {
  (* Audio parameters. *)
  rate_ : Z;
  channels_ : Z;
  depth_ : Z;
  format_ : string;
  (* The pipeline: [None] is [nullptr], [Some s] an element in state [s]. *)
  pipeline_ : option GstState;
  (* [processing_thread_.joinable()] *)
  processing_thread_ : bool;
  processing_stop_ : bool;
  (* Running presentation timestamp. *)
  pts_ : Z;
  (* Ghost: the collaborator calls made so far, oldest first. *)
  history : list call
}.

Definition set_processing_stop (b : bool) (s : pcm2mp3) : pcm2mp3 :=
  mk_pcm2mp3 (rate_ s) (channels_ s) (depth_ s) (format_ s) (pipeline_ s)
    (processing_thread_ s) b (pts_ s) (history s).

Definition set_processing_thread (b : bool) (s : pcm2mp3) : pcm2mp3 :=
  mk_pcm2mp3 (rate_ s) (channels_ s) (depth_ s) (format_ s) (pipeline_ s)
    b (processing_stop_ s) (pts_ s) (history s).

Definition set_pipeline (p : option GstState) (s : pcm2mp3) : pcm2mp3 :=
  mk_pcm2mp3 (rate_ s) (channels_ s) (depth_ s) (format_ s) p
    (processing_thread_ s) (processing_stop_ s) (pts_ s) (history s).

Definition set_pts (t : Z) (s : pcm2mp3) : pcm2mp3 :=
  mk_pcm2mp3 (rate_ s) (channels_ s) (depth_ s) (format_ s) (pipeline_ s)
    (processing_thread_ s) (processing_stop_ s) t (history s).

Definition record_call (c : call) (s : pcm2mp3) : pcm2mp3 :=
  mk_pcm2mp3 (rate_ s) (channels_ s) (depth_ s) (format_ s) (pipeline_ s)
    (processing_thread_ s) (processing_stop_ s) (pts_ s) (history s ++ [c]).

(** The stream configuration of an object. *)
Definition configuration (s : pcm2mp3) : Z * Z * Z * string :=
  (rate_ s, channels_ s, depth_ s, format_ s).

(** The buffers handed to the Source stage so far, oldest first. *)
Fixpoint pushed_buffers (h : list call) : list GstBuffer :=
  match h with
  | [] => []
  | app_src_push_buffer b _ :: h' => b :: pushed_buffers h'
  | _ :: h' => pushed_buffers h'
  end.

Fixpoint joins (h : list call) : nat :=
  match h with
  | [] => O
  | thread_join :: h' => S (joins h')
  | _ :: h' => joins h'
  end.

(** ** Outcomes and the monad of member functions *)

Inductive exception : Type :=
| runtime_error (what : string).

Inductive fault : Type :=
| division_by_zero      (* [%] or [/] with a zero divisor *)
| terminate_called.     (* assignment to a joinable [std::thread] *)

Inductive outcome (A : Type) : Type :=
| Returns (a : A) (s : pcm2mp3)
| Throws (e : exception) (s : pcm2mp3)
| Undefined (f : fault)
| Hangs.
Arguments Returns {A} a s.
Arguments Throws {A} e s.
Arguments Undefined {A} f.
Arguments Hangs {A}.

Definition M (A : Type) : Type := pcm2mp3 -> outcome A.

Definition ret {A} (a : A) : M A := fun s => Returns a s.

Definition bind {A B} (m : M A) (k : A -> M B) : M B :=
  fun s =>
    match m s with
    | Returns a s' => k a s'
    | Throws e s' => Throws e s'
    | Undefined f => Undefined f
    | Hangs => Hangs
    end.

Definition throw {A} (e : exception) : M A := fun s => Throws e s.
Definition undefined {A} (f : fault) : M A := fun _ => Undefined f.
Definition gets {A} (f : pcm2mp3 -> A) : M A := fun s => Returns (f s) s.
Definition modify (f : pcm2mp3 -> pcm2mp3) : M unit := fun s => Returns tt (f s).

Declare Scope member_scope.
Delimit Scope member_scope with member.
Notation "x <- m ;; k" := (bind m (fun x => k))
  (at level 61, m at next level, right associativity) : member_scope.
Notation "m ;; k" := (bind m (fun _ => k))
  (at level 61, right associativity) : member_scope.
Local Open Scope member_scope.

(** The state an outcome leaves the object in, when there is one. *)
Definition final_state {A} (o : outcome A) : option pcm2mp3 :=
  match o with
  | Returns _ s | Throws _ s => Some s
  | Undefined _ | Hangs => None
  end.

(** ** Error messages and the spec's error kinds *)

Definition msg_pipeline : string := "pcm2mp3 -> failed to create GStreamer pipeline".
Definition msg_elements : string := "pcm2mp3 -> failed to create GStreamer elements".
Definition msg_link : string := "pcm2mp3 -> failed to link GStreamer elements".
Definition msg_playing : string := "pcm2mp3 -> failed to set pipeline to PLAYING state".
Definition msg_invalid_size : string :=
  "pcm2mp3 -> invalid PCM data size, not aligned with sample size".
Definition msg_push : string := "pcm2mp3 -> failed to push buffer into appsrc: ".

Definition InvalidBufferSizeError : exception := runtime_error msg_invalid_size.
Definition PushError (r : GstFlowReturn) : exception :=
  runtime_error (String.append msg_push (gst_flow_get_name r)).
Definition StateTransitionError : exception := runtime_error msg_playing.

Section Controller.

Variable engine : Engine.

(** ** C++ operators and GStreamer calls as computations *)

(** [a % b] and [a / b] on [std::size_t]. *)
Definition size_rem (a b : Z) : M Z :=
  if b =? 0 then undefined division_by_zero else ret (a mod b).

Definition size_div (a b : Z) : M Z :=
  if b =? 0 then undefined division_by_zero else ret (a / b).

(** [pts_.load()] and [pts_ += d] on the [std::atomic<guint64>]. *)
Definition pts_load : M Z := gets pts_.

Definition pts_fetch_add (d : Z) : M unit :=
  modify (fun s => set_pts (wrap64 (pts_ s + d)) s).

Definition gst_app_src_push_buffer (b : GstBuffer) : M GstFlowReturn :=
  fun s =>
    let r := push_reply engine (history s) b in
    Returns r (record_call (app_src_push_buffer b r) s).

(** [gst_element_set_state (pipeline_, target)] on a pipeline in state [cur]:
    the element is in [target] unless the change failed. *)
Definition gst_element_set_state (cur target : GstState) : M GstStateChangeReturn :=
  fun s =>
    let r := set_state_reply engine (history s) target in
    let now := if change_failed r then cur else target in
    Returns r (record_call (element_set_state target r) (set_pipeline (Some now) s)).

(** [processing_thread_.join()]: returns once the consumer loop has ended. *)
Definition join_processing_thread : M unit :=
  fun s =>
    if consumer_ends engine (history s)
    then Returns tt (record_call thread_join (set_processing_thread false s))
    else Hangs.

(** [processing_thread_ = std::thread(...)]. *)
Definition spawn_processing_thread : M unit :=
  fun s =>
    if processing_thread_ s then Undefined terminate_called
    else Returns tt (record_call thread_start (set_processing_thread true s)).

(** ** Member functions *)

(** The size in bytes of one sample frame, [channels_ * (depth_ / 8)], an
    [unsigned int] product widened to [std::size_t]. *)
Definition sample_size (s : pcm2mp3) : Z :=
  wrap32 (channels_ s * (depth_ s / 8)).

Definition start : M unit :=
  modify (set_processing_stop false) ;;
  p <- gets pipeline_ ;;
  r <- match p with
       | Some cur => gst_element_set_state cur GST_STATE_PLAYING
       | None => ret GST_STATE_CHANGE_FAILURE
       end ;;
  if change_failed r then throw StateTransitionError
  else spawn_processing_thread.

Definition stop : M unit :=
  modify (set_processing_stop true) ;;
  joinable <- gets processing_thread_ ;;
  (if joinable : bool then join_processing_thread else ret tt) ;;
  p <- gets pipeline_ ;;
  match p with
  | Some cur => gst_element_set_state cur GST_STATE_NULL ;; ret tt
  | None => ret tt
  end.

Definition push_pcm_data (data : list byte) : M unit :=
  match data with
  | [] => ret tt
  | _ :: _ =>
      ss <- gets sample_size ;;
      r <- size_rem (size data) ss ;;
      if negb (r =? 0) then throw InvalidBufferSizeError
      else
        n <- size_div (size data) ss ;;
        rate <- gets rate_ ;;
        let duration := gst_util_uint64_scale n GST_SECOND rate in
        current_pts <- pts_load ;;
        pts_fetch_add duration ;;
        let gst_buffer := mkBuffer data current_pts duration in
        r <- gst_app_src_push_buffer gst_buffer ;;
        if flow_ok r then ret tt else throw (PushError r)
  end.

(** The three sizes [push_silence] computes. *)
Definition silence_num_samples (s : pcm2mp3) (duration_ms : Z) : Z :=
  wrap32 (rate_ s * duration_ms) / 1000.

Definition silence_buffer_size (s : pcm2mp3) (duration_ms : Z) : Z :=
  wrap64 (silence_num_samples s duration_ms * sample_size s).

Definition silence (s : pcm2mp3) (duration_ms : Z) : list byte :=
  repeat x00 (Z.to_nat (silence_buffer_size s duration_ms)).

Definition push_silence (duration_ms : Z) : M unit :=
  fun s => push_pcm_data (silence s duration_ms) s.

Definition cleanup_pipeline : M unit :=
  p <- gets pipeline_ ;;
  match p with
  | Some cur =>
      gst_element_set_state cur GST_STATE_NULL ;;
      modify (set_pipeline None)
  | None => ret tt
  end.

(** The destructor. *)
Definition destroy : M unit :=
  stop ;; cleanup_pipeline.

(** The constructor: the member initialisers, then [initialize_pipeline]. *)
Definition construct (rate channels depth : Z) (format : string)
  : exception + pcm2mp3 :=
  if negb (pipeline_new_ok engine) then inl (runtime_error msg_pipeline)
  else if negb (factory_make_ok engine) then inl (runtime_error msg_elements)
  else if negb (link_many_ok engine) then inl (runtime_error msg_link)
  else inr (mk_pcm2mp3 (wrap32 rate) (wrap32 channels) (wrap32 depth) format
              (Some GST_STATE_NULL) false false 0 []).

End Controller.

(** ** Derived notions used by the statements *)

(** The duration [push_pcm_data] computes for [data]. *)
Definition duration_of (s : pcm2mp3) (data : list byte) : Z :=
  gst_util_uint64_scale (size data / sample_size s) GST_SECOND (rate_ s).

(** [data]'s length is an exact multiple of the sample size. *)
Definition aligned (s : pcm2mp3) (data : list byte) : Prop :=
  (sample_size s | size data).

(** [len % sample_size != 0] holds: the C++ remainder has a value (the
    divisor is not zero) and that value is not zero. *)
Definition misaligned (s : pcm2mp3) (data : list byte) : Prop :=
  sample_size s <> 0 /\ size data mod sample_size s <> 0.

(** The buffer [push_pcm_data] builds for [data] on the object [s]. *)
Definition buffer_for (s : pcm2mp3) (data : list byte) : GstBuffer :=
  mkBuffer data (pts_ s) (duration_of s data).

(** The object after a validated push of [data] that the Source stage
    answered with [r]. *)
Definition after_push (s : pcm2mp3) (data : list byte) (r : GstFlowReturn)
  : pcm2mp3 :=
  record_call (app_src_push_buffer (buffer_for s data) r)
    (set_pts (wrap64 (pts_ s + duration_of s data)) s).

(** Everything of the object but the ghost history. *)
Definition fields (s : pcm2mp3)
  : Z * Z * Z * string * option GstState * bool * bool * Z :=
  (rate_ s, channels_ s, depth_ s, format_ s, pipeline_ s,
   processing_thread_ s, processing_stop_ s, pts_ s).

(** A member function leaves the stream configuration alone. *)
Definition keeps_configuration {A} (m : M A) : Prop :=
  forall s s', final_state (m s) = Some s' -> configuration s' = configuration s.

(** A freshly constructed default object, [pcm2mp3 mp3Convertor;]. *)
Definition default_object : pcm2mp3 :=
  mk_pcm2mp3 32000 1 16 "S16LE" (Some GST_STATE_NULL) false false 0 [].

(** An engine that builds and accepts every state change, answers every
    push with [r], and whose consumer loop ends when asked to. *)
Definition engine_answering (r : GstFlowReturn) : Engine :=
  mkEngine true true true
    (fun _ _ => GST_STATE_CHANGE_SUCCESS) (fun _ _ => r) (fun _ => true).

(** ** Concurrent callers of [push_pcm_data]

    The body of [push_pcm_data] touches the shared object in three places,
    each atomic on its own: [pts_.load()], [pts_ += duration] and the push
    into the Source stage. A caller thread that has passed validation is a
    three-step machine over these; a schedule picks which caller moves. *)

Module Concurrent.

Inductive position : Type :=
| at_load
| at_add
| at_push
| finished.

Record caller : Type := mkCaller {
  c_data : list byte;
  c_duration : Z;        (* [duration], a local constant *)
  c_current_pts : Z;     (* [current_pts], set by the load *)
  c_at : position
}.

(** Entering [push_pcm_data (data)]: the checks and the duration read only
    the configuration. [None]: the call ends before it touches the counter. *)
Definition enter (s : pcm2mp3) (data : list byte) : option caller :=
  match data with
  | [] => None
  | _ :: _ =>
      if sample_size s =? 0 then None
      else if negb (size data mod sample_size s =? 0) then None
      else Some (mkCaller data (duration_of s data) 0 at_load)
  end.

Definition state_of {A} (o : outcome A) (otherwise : pcm2mp3) : pcm2mp3 :=
  match final_state o with Some s => s | None => otherwise end.

Definition step (engine : Engine) (c : caller) (s : pcm2mp3) : caller * pcm2mp3 :=
  match c_at c with
  | at_load =>
      (mkCaller (c_data c) (c_duration c) (pts_ s) at_add, s)
  | at_add =>
      (mkCaller (c_data c) (c_duration c) (c_current_pts c) at_push,
       state_of (pts_fetch_add (c_duration c) s) s)
  | at_push =>
      (mkCaller (c_data c) (c_duration c) (c_current_pts c) finished,
       state_of
         (gst_app_src_push_buffer engine
            (mkBuffer (c_data c) (c_current_pts c) (c_duration c)) s) s)
  | finished => (c, s)
  end.

Fixpoint update (cs : list caller) (i : nat) (c : caller) : list caller :=
  match cs, i with
  | [], _ => []
  | _ :: cs', O => c :: cs'
  | c0 :: cs', S i' => c0 :: update cs' i' c
  end.

(** Run a schedule: each entry names the caller that takes its next step. *)
Fixpoint run (engine : Engine) (schedule : list nat)
  (cs : list caller) (s : pcm2mp3) : list caller * pcm2mp3 :=
  match schedule with
  | [] => (cs, s)
  | i :: rest =>
      match nth_error cs i with
      | Some c =>
          let (c', s') := step engine c s in
          run engine rest (update cs i c') s'
      | None => run engine rest cs s
      end
  end.

(** The part of its duration a caller has added to the counter so far. *)
Definition added (c : caller) : Z :=
  match c_at c with
  | at_load | at_add => 0
  | at_push | finished => c_duration c
  end.

Fixpoint total_added (cs : list caller) : Z :=
  match cs with
  | [] => 0
  | c :: cs' => added c + total_added cs'
  end.

End Concurrent.

(** ** A caller pushing a sequence of buffers

    The caller of [push_pcm_data] that catches what a push throws and goes
    on with the next buffer. [None]: a push ran into undefined behaviour. *)

Fixpoint push_all (engine : Engine) (bufs : list (list byte)) (s : pcm2mp3)
  : option pcm2mp3 :=
  match bufs with
  | [] => Some s
  | b :: rest =>
      match final_state (push_pcm_data engine b s) with
      | Some s' => push_all engine rest s'
      | None => None
      end
  end.

(** [data] passes both checks of [push_pcm_data] (for a non-zero sample
    size). *)
Definition accepted (s : pcm2mp3) (data : list byte) : bool :=
  match data with
  | [] => false
  | _ :: _ => size data mod sample_size s =? 0
  end.

(** The buffers a sequence of pushes hands over: the accepted ones, each
    stamped with the start value [t0] plus the durations [total] of the
    accepted buffers before it, on 64 bits. *)
Fixpoint stamps (s : pcm2mp3) (t0 total : Z) (bufs : list (list byte))
  : list GstBuffer :=
  match bufs with
  | [] => []
  | b :: rest =>
      if accepted s b
      then mkBuffer b (wrap64 (t0 + total)) (duration_of s b)
             :: stamps s t0 (total + duration_of s b) rest
      else stamps s t0 total rest
  end.

Fixpoint total_duration (s : pcm2mp3) (bufs : list (list byte)) : Z :=
  match bufs with
  | [] => 0
  | b :: rest =>
      (if accepted s b then duration_of s b else 0) + total_duration s rest
  end.

(** ** The consumer loop of [start]

    The body of the thread started by [start]. An iteration reads the stop
    flag, then pulls; what it reads and what the pull returns come from
    outside, one [iteration] each. A script that runs out leaves the thread
    in its next pull. *)

Inductive pulled : Type :=
| no_sample                                  (* [gst_app_sink_pull_sample] gave [nullptr] *)
| sample (mapped : option (list byte)).      (* a sample; [gst_buffer_map] gave its bytes or failed *)

Record iteration : Type := mkIteration {
  stop_seen : bool;        (* [processing_stop_] as read at the loop head *)
  pull : pulled
}.

Inductive consumer_event : Type :=
| callback_called (buf_ : list byte)
| sample_unref.

Definition consumer_body (p : pulled) : list consumer_event :=
  match p with
  | no_sample => []
  | sample (Some bytes) => [callback_called bytes; sample_unref]
  | sample None => [sample_unref]
  end.

(** What the loop does on a script, and whether it has ended. *)
Fixpoint consumer_loop (script : list iteration) : list consumer_event * bool :=
  match script with
  | [] => ([], false)
  | it :: rest =>
      if stop_seen it then ([], true)
      else
        let (events, ended) := consumer_loop rest in
        (consumer_body (pull it) ++ events, ended)
  end.

Fixpoint callbacks (events : list consumer_event) : list (list byte) :=
  match events with
  | [] => []
  | callback_called b :: rest => b :: callbacks rest
  | sample_unref :: rest => callbacks rest
  end.

Fixpoint unrefs (events : list consumer_event) : nat :=
  match events with
  | [] => O
  | sample_unref :: rest => S (unrefs rest)
  | callback_called _ :: rest => unrefs rest
  end.

(** The iterations before the first one that sees the stop flag. *)
Fixpoint before_stop (script : list iteration) : list iteration :=
  match script with
  | [] => []
  | it :: rest => if stop_seen it then [] else it :: before_stop rest
  end.

Fixpoint mapped_bytes (script : list iteration) : list (list byte) :=
  match script with
  | [] => []
  | it :: rest =>
      match pull it with
      | sample (Some bytes) => bytes :: mapped_bytes rest
      | _ => mapped_bytes rest
      end
  end.

Fixpoint samples (script : list iteration) : nat :=
  match script with
  | [] => O
  | it :: rest =>
      match pull it with
      | sample _ => S (samples rest)
      | no_sample => samples rest
      end
  end.

(** ** The unit test (TEST_CASE "pcm2mp3") *)

Inductive test_result : Type :=
| test_passed
| require_failed (which : nat)
| test_threw (e : exception)
| test_aborted (f : fault)
| test_hung.

Definition test_case (engine : Engine) : test_result :=
  match construct engine 32000 1 16 "S16LE" with
  | inl e => test_threw e
  | inr mp3Convertor =>
      match start engine mp3Convertor with
      | Throws e _ => test_threw e
      | Undefined f => test_aborted f
      | Hangs => test_hung
      | Returns _ started =>
          if Nat.eqb (String.length (format_ started)) 0 then require_failed 1
          else
            match stop engine started with
            | Throws e _ => test_threw e
            | Undefined f => test_aborted f
            | Hangs => test_hung
            | Returns _ stopped =>
                if Nat.eqb (String.length (format_ stopped)) 0 then test_passed
                else require_failed 2
            end
      end
  end.

(** ** Frames *)

(** A member function leaves the part [f] of the object alone. *)
Definition keeps {A B} (f : pcm2mp3 -> B) (m : M A) : Prop :=
  forall s s', final_state (m s) = Some s' -> f s' = f s.

(** The counter and the buffers handed over so far. *)
Definition stream_position (s : pcm2mp3) : Z * list GstBuffer :=
  (pts_ s, pushed_buffers (history s)).


(** ** Basic facts *)

Lemma size_nonneg (data : list byte) : 0 <= size data.
Proof. unfold size. lia. Qed.

Lemma size_pos (data : list byte) : data <> [] -> 0 < size data.
Proof. destruct data; [congruence | unfold size; simpl; lia]. Qed.

Lemma size_repeat (b : byte) (n : Z) : 0 <= n -> size (repeat b (Z.to_nat n)) = n.
Proof. intros Hn. unfold size. rewrite repeat_length. lia. Qed.

Lemma pushed_buffers_app (h1 h2 : list call) :
  pushed_buffers (h1 ++ h2) = pushed_buffers h1 ++ pushed_buffers h2.
Proof.
  induction h1 as [| c h1 IH]; [reflexivity |].
  destruct c; cbn [pushed_buffers app]; rewrite IH; reflexivity.
Qed.

Lemma joins_app (h1 h2 : list call) :
  joins (h1 ++ h2) = (joins h1 + joins h2)%nat.
Proof.
  induction h1 as [| c h1 IH]; [reflexivity |].
  destruct c; cbn [joins app]; rewrite IH; reflexivity.
Qed.

Lemma sample_size_range (s : pcm2mp3) : 0 <= sample_size s < 2 ^ 32.
Proof. unfold sample_size, wrap32. apply Z.mod_pos_bound. lia. Qed.

Lemma aligned_nonzero (s : pcm2mp3) (data : list byte) :
  data <> [] -> aligned s data -> sample_size s <> 0 /\ size data mod sample_size s = 0.
Proof.
  intros Hne [k Hk]. pose proof (size_pos data Hne) as Hpos.
  assert (Hss : sample_size s <> 0) by (intros H0; rewrite H0 in Hk; lia).
  split; [exact Hss |]. rewrite Hk. apply Z.mod_mul. exact Hss.
Qed.

Lemma scale_exact (val num denom : Z) :
  0 < denom -> val * num / denom < 2 ^ 64 ->
  gst_util_uint64_scale val num denom = val * num / denom.
Proof.
  intros Hd Hq. unfold gst_util_uint64_scale, G_MAXUINT64.
  destruct (Z.eqb_spec denom 0); [lia |].
  destruct (Z.leb_spec (val * num / denom) (2 ^ 64 - 1)); [reflexivity | lia].
Qed.

Lemma push_error_not_size_error (r : GstFlowReturn) :
  PushError r <> InvalidBufferSizeError.
Proof. destruct r; discriminate. Qed.

Section ControllerFacts.

Variable engine : Engine.

Lemma push_pcm_data_empty (s : pcm2mp3) :
  push_pcm_data engine [] s = Returns tt s.
Proof. reflexivity. Qed.

Lemma push_pcm_data_zero_divisor (s : pcm2mp3) (data : list byte) :
  data <> [] -> sample_size s = 0 ->
  push_pcm_data engine data s = Undefined division_by_zero.
Proof.
  intros Hne H0. destruct data as [| b data]; [congruence |].
  unfold push_pcm_data, bind, gets, size_rem. rewrite H0. reflexivity.
Qed.

Lemma push_pcm_data_misaligned (s : pcm2mp3) (data : list byte) :
  data <> [] -> misaligned s data ->
  push_pcm_data engine data s = Throws InvalidBufferSizeError s.
Proof.
  intros Hne [Hss Hrem]. destruct data as [| b data]; [congruence |].
  unfold push_pcm_data, bind, gets, size_rem.
  destruct (Z.eqb_spec (sample_size s) 0) as [E | _]; [contradiction |].
  unfold ret. destruct (Z.eqb_spec (size (b :: data) mod sample_size s) 0) as [E | _];
    [contradiction | reflexivity].
Qed.

Lemma push_pcm_data_aligned (s : pcm2mp3) (data : list byte) :
  data <> [] -> aligned s data ->
  let r := push_reply engine (history s) (buffer_for s data) in
  push_pcm_data engine data s =
    if flow_ok r then Returns tt (after_push s data r)
    else Throws (PushError r) (after_push s data r).
Proof.
  intros Hne Hal. destruct (aligned_nonzero s data Hne Hal) as [Hss Hrem].
  destruct data as [| b data]; [congruence |].
  unfold push_pcm_data, bind, gets, size_rem, size_div.
  destruct (Z.eqb_spec (sample_size s) 0) as [E | _]; [contradiction |].
  unfold ret. rewrite Hrem. change (negb (0 =? 0)) with false. cbv beta iota.
  unfold pts_load, pts_fetch_add, modify, gets, gst_app_src_push_buffer.
  cbn [history set_pts pts_ rate_]. cbv zeta.
  fold (duration_of s (b :: data)). fold (buffer_for s (b :: data)).
  unfold after_push.
  destruct (flow_ok _); reflexivity.
Qed.

Lemma push_pcm_data_aligned_state (s : pcm2mp3) (data : list byte) :
  data <> [] -> aligned s data ->
  final_state (push_pcm_data engine data s)
  = Some (after_push s data (push_reply engine (history s) (buffer_for s data))).
Proof.
  intros Hne Hal. rewrite (push_pcm_data_aligned s data Hne Hal). cbv zeta.
  destruct (flow_ok _); reflexivity.
Qed.

(** The four ways a call of [push_pcm_data] can go. *)
Lemma push_pcm_data_cases (s : pcm2mp3) (data : list byte) :
  (data = [] /\ push_pcm_data engine data s = Returns tt s)
  \/ (data <> [] /\ sample_size s = 0
      /\ push_pcm_data engine data s = Undefined division_by_zero)
  \/ (data <> [] /\ misaligned s data
      /\ push_pcm_data engine data s = Throws InvalidBufferSizeError s)
  \/ (data <> [] /\ aligned s data
      /\ push_pcm_data engine data s =
           let r := push_reply engine (history s) (buffer_for s data) in
           if flow_ok r then Returns tt (after_push s data r)
           else Throws (PushError r) (after_push s data r)).
Proof.
  destruct data as [| b data]; [left; split; reflexivity |].
  assert (Hne : b :: data <> []) by discriminate.
  destruct (Z.eq_dec (sample_size s) 0) as [H0 | Hss].
  - right; left. auto using push_pcm_data_zero_divisor.
  - destruct (Z.eq_dec (size (b :: data) mod sample_size s) 0) as [Hr | Hr].
    + right; right; right.
      assert (Hal : aligned s (b :: data)).
      { apply Z.mod_divide; assumption. }
      split; [exact Hne |]. split; [exact Hal |].
      apply push_pcm_data_aligned; assumption.
    + right; right; left.
      assert (Hm : misaligned s (b :: data)) by (split; assumption).
      auto using push_pcm_data_misaligned.
Qed.

End ControllerFacts.


(** * Properties *)

(** ** Validation of the pushed buffer *)

(** C3. [push_pcm_data (data)] throws the invalid-size error exactly when
    [data] is not empty and [len % sample_size != 0]; on an empty vector it
    returns at once and the object (counter and call history included) is
    untouched; and whenever it throws the invalid-size error the object is
    untouched, so the timestamp counter is unchanged and nothing was
    forwarded. *)
Theorem push_pcm_data_invalid_size_iff (engine : Engine) (s : pcm2mp3) (data : list byte) :
  ((exists s', push_pcm_data engine data s = Throws InvalidBufferSizeError s')
   <-> data <> [] /\ misaligned s data)
  /\ push_pcm_data engine [] s = Returns tt s
  /\ (forall s', push_pcm_data engine data s = Throws InvalidBufferSizeError s' ->
        s' = s /\ pts_ s' = pts_ s
        /\ pushed_buffers (history s') = pushed_buffers (history s)).
Proof.
  assert (Hthrow : forall s', push_pcm_data engine data s = Throws InvalidBufferSizeError s' ->
                         data <> [] /\ misaligned s data /\ s' = s).
  { intros s' H.
    destruct (push_pcm_data_cases engine s data)
      as [[_ E] | [(_ & _ & E) | [(Hne & Hm & E) | (_ & _ & E)]]];
      rewrite E in H.
    - discriminate.
    - discriminate.
    - inversion H; subst. repeat split; assumption || apply Hm.
    - revert H. cbv zeta. destruct (flow_ok _); intros H; [discriminate |].
      (* the two messages differ at their twelfth character *)
      inversion H. }
  split; [split |].
  - intros [s' H]. destruct (Hthrow s' H) as (Hne & Hm & _). auto.
  - intros [Hne Hm]. exists s. apply push_pcm_data_misaligned; assumption.
  - split; [reflexivity |].
    intros s' H. destruct (Hthrow s' H) as (_ & _ & ->). auto.
Qed.

(** ** Timestamping of a valid buffer *)

(** C1, amended. For every non-empty buffer whose length is an exact
    multiple of the sample size, [push_pcm_data] passes validation and makes
    exactly one push to the Source stage, of a buffer that carries the data,
    the counter's value before the advance and the duration
    [gst_util_uint64_scale (len / sample_size, GST_SECOND, rate_)]; the
    counter advances by that duration modulo 2^64. The call returns when the
    Source stage answers [GST_FLOW_OK] and throws the push error otherwise,
    the counter being advanced in both cases. The duration is the exact
    integer [len / sample_size * 10^9 / rate_] when the rate is positive and
    that quotient fits 64 bits, and the advance is exact when the sum fits
    64 bits. *)
Theorem push_pcm_data_valid (engine : Engine) (s : pcm2mp3) (data : list byte) :
  data <> [] -> aligned s data ->
  let d := duration_of s data in
  let b := mkBuffer data (pts_ s) d in
  let r := push_reply engine (history s) b in
  exists s',
    push_pcm_data engine data s
      = (if flow_ok r then Returns tt s' else Throws (PushError r) s')
    /\ history s' = history s ++ [app_src_push_buffer b r]
    /\ pts_ s' = wrap64 (pts_ s + d)
    /\ (0 <= pts_ s + d < 2 ^ 64 -> pts_ s' = pts_ s + d)
    /\ (0 < rate_ s ->
        size data / sample_size s * GST_SECOND / rate_ s < 2 ^ 64 ->
        d = size data / sample_size s * GST_SECOND / rate_ s)
    /\ configuration s' = configuration s.
Proof.
  intros Hne Hal d b r. exists (after_push s data r).
  split; [exact (push_pcm_data_aligned engine s data Hne Hal) |].
  split; [reflexivity |]. split; [reflexivity |].
  split.
  - intros Hfit. cbn. unfold wrap64. fold d. apply Z.mod_small. exact Hfit.
  - split; [| reflexivity].
    intros Hrate Hq. unfold d, duration_of. apply scale_exact; assumption.
Qed.

Lemma push_pcm_data_valid_witness :
  exists s',
    push_pcm_data (engine_answering GST_FLOW_OK) [x00; x01] default_object
      = Returns tt s'
    /\ pts_ s' = 31250.
Proof.
  destruct (push_pcm_data_valid (engine_answering GST_FLOW_OK) default_object [x00; x01])
    as (s' & Hrun & _ & Hpts & _).
  - discriminate.
  - exists 1. reflexivity.
  - exists s'. split; [exact Hrun | exact Hpts].
Defined.

(** C1 as stated fails: a valid two-byte buffer pushed into a default
    object whose Source stage answers [GST_FLOW_FLUSHING] (as it does before
    [start]) makes [push_pcm_data] throw. *)
Lemma push_pcm_data_valid_can_fail :
  let s := default_object in
  let data := [x00; x01] in
  data <> [] /\ aligned s data
  /\ push_pcm_data (engine_answering GST_FLOW_FLUSHING) data s
     = Throws (PushError GST_FLOW_FLUSHING)
         (after_push s data GST_FLOW_FLUSHING)
  /\ ~ (exists s', push_pcm_data (engine_answering GST_FLOW_FLUSHING) data s
                   = Returns tt s').
Proof.
  cbv zeta. split; [discriminate |]. split; [exists 1; reflexivity |].
  split; [reflexivity |]. intros [s' H]. discriminate H.
Qed.

(** ** Rejection by the Source stage *)

(** C8. For every buffer that passes validation, if the Source stage
    answers the push with anything but [GST_FLOW_OK], [push_pcm_data] throws
    the push error, whose message is the fixed prefix followed by
    [gst_flow_get_name] of that answer; the call made exactly one push (the
    history grew by that single call, so nothing was retried). *)
Theorem push_pcm_data_rejected (engine : Engine) (s : pcm2mp3) (data : list byte) :
  data <> [] -> aligned s data ->
  let b := buffer_for s data in
  let r := push_reply engine (history s) b in
  flow_ok r = false ->
  exists s',
    push_pcm_data engine data s = Throws (PushError r) s'
    /\ PushError r = runtime_error (String.append msg_push (gst_flow_get_name r))
    /\ history s' = history s ++ [app_src_push_buffer b r]
    /\ pushed_buffers (history s') = pushed_buffers (history s) ++ [b].
Proof.
  intros Hne Hal b r Hrej. exists (after_push s data r).
  split.
  - rewrite (push_pcm_data_aligned engine s data Hne Hal). cbv zeta.
    fold b. fold r. rewrite Hrej. reflexivity.
  - split; [reflexivity |]. split; [reflexivity |].
    change (history (after_push s data r))
      with (history s ++ [app_src_push_buffer b r]).
    apply pushed_buffers_app.
Qed.

Lemma push_pcm_data_rejected_witness :
  exists s',
    push_pcm_data (engine_answering GST_FLOW_ERROR) [x00; x01] default_object
      = Throws (runtime_error "pcm2mp3 -> failed to push buffer into appsrc: error") s'
    /\ pushed_buffers (history s') = [mkBuffer [x00; x01] 0 31250].
Proof.
  destruct (push_pcm_data_rejected (engine_answering GST_FLOW_ERROR)
              default_object [x00; x01])
    as (s' & Hrun & _ & _ & Hpushed).
  - discriminate.
  - exists 1. reflexivity.
  - reflexivity.
  - exists s'. split; [exact Hrun | exact Hpushed].
Defined.

(** ** Continuity of consecutive timestamps *)

(** C2, amended. Two valid buffers pushed one after the other (whatever the
    Source stage answers, and with nothing pushed in between) are handed
    over with timestamps [t1] and [t2] where [t2] is [t1 + duration (b1)]
    modulo 2^64: equal to [t1 + duration (b1)] whenever that sum fits the
    64-bit counter. *)
Theorem consecutive_pushes (engine : Engine) (s : pcm2mp3) (b1 b2 : list byte) :
  b1 <> [] -> aligned s b1 -> b2 <> [] -> aligned s b2 ->
  exists s1 s2 t1 t2 d2 r1 r2,
    final_state (push_pcm_data engine b1 s) = Some s1
    /\ final_state (push_pcm_data engine b2 s1) = Some s2
    /\ history s2 = history s ++
         [app_src_push_buffer (mkBuffer b1 t1 (duration_of s b1)) r1;
          app_src_push_buffer (mkBuffer b2 t2 d2) r2]
    /\ t1 = pts_ s
    /\ t2 = wrap64 (t1 + duration_of s b1)
    /\ (0 <= t1 + duration_of s b1 < 2 ^ 64 -> t2 = t1 + duration_of s b1).
Proof.
  intros Hne1 Hal1 Hne2 Hal2.
  set (r1 := push_reply engine (history s) (buffer_for s b1)).
  set (s1 := after_push s b1 r1).
  set (r2 := push_reply engine (history s1) (buffer_for s1 b2)).
  exists s1, (after_push s1 b2 r2), (pts_ s), (pts_ s1), (duration_of s1 b2), r1, r2.
  split.
  { exact (push_pcm_data_aligned_state engine s b1 Hne1 Hal1). }
  split.
  { assert (Hal2' : aligned s1 b2) by exact Hal2.
    exact (push_pcm_data_aligned_state engine s1 b2 Hne2 Hal2'). }
  split.
  { change (history (after_push s1 b2 r2))
      with ((history s ++ [app_src_push_buffer (buffer_for s b1) r1])
              ++ [app_src_push_buffer (buffer_for s1 b2) r2]).
    rewrite <- app_assoc. reflexivity. }
  split; [reflexivity |]. split; [reflexivity |].
  intros Hfit. change (pts_ s1) with (wrap64 (pts_ s + duration_of s b1)).
  unfold wrap64. apply Z.mod_small. exact Hfit.
Qed.

Lemma consecutive_pushes_witness :
  exists s1 s2 t1 t2 d2 r1 r2,
    final_state (push_pcm_data (engine_answering GST_FLOW_OK) [x00; x01] default_object)
      = Some s1
    /\ final_state (push_pcm_data (engine_answering GST_FLOW_OK) [x02; x03; x04; x05] s1)
      = Some s2
    /\ history s2 = history default_object ++
         [app_src_push_buffer
            (mkBuffer [x00; x01] t1 (duration_of default_object [x00; x01])) r1;
          app_src_push_buffer (mkBuffer [x02; x03; x04; x05] t2 d2) r2]
    /\ t1 = 0
    /\ t2 = 31250.
Proof.
  destruct (consecutive_pushes (engine_answering GST_FLOW_OK) default_object
              [x00; x01] [x02; x03; x04; x05])
    as (s1 & s2 & t1 & t2 & d2 & r1 & r2 & H1 & H2 & Hh & Ht1 & Ht2 & _).
  - discriminate.
  - exists 1. reflexivity.
  - discriminate.
  - exists 2. reflexivity.
  - exists s1, s2, t1, t2, d2, r1, r2.
    split; [exact H1 |]. split; [exact H2 |]. split; [exact Hh |].
    split; [exact Ht1 |]. rewrite Ht2, Ht1. reflexivity.
Defined.

(** C2 as stated fails where the 64-bit counter wraps: on an object whose
    counter stands two nanoseconds below 2^64, two one-sample buffers are
    stamped 2^64 - 2 and 31248, and 31248 is not 2^64 - 2 + 31250. *)
Lemma consecutive_pushes_wrap :
  let e := engine_answering GST_FLOW_OK in
  let s := set_pts (2 ^ 64 - 2) default_object in
  exists s2,
    (push_pcm_data e [x00; x01] ;; push_pcm_data e [x00; x01]) s = Returns tt s2
    /\ pushed_buffers (history s2)
       = [mkBuffer [x00; x01] 18446744073709551614 31250;
          mkBuffer [x00; x01] 31248 31250]
    /\ 31248 <> 18446744073709551614 + 31250.
Proof.
  cbv zeta. eexists. split; [vm_compute; reflexivity |].
  split; [reflexivity | lia].
Qed.

(** ** The sample size as a divisor *)

Lemma push_pcm_data_defined (engine : Engine) (s : pcm2mp3) (data : list byte) :
  sample_size s <> 0 -> forall f, push_pcm_data engine data s <> Undefined f.
Proof.
  intros Hss f.
  destruct (push_pcm_data_cases engine s data)
    as [[_ E] | [(_ & H0 & _) | [(_ & _ & E) | (_ & _ & E)]]];
    try contradiction; rewrite E; try discriminate.
  cbv zeta. destruct (flow_ok _); discriminate.
Qed.

Lemma silence_empty (s : pcm2mp3) (duration_ms : Z) :
  sample_size s = 0 -> silence s duration_ms = [].
Proof.
  intros H0. unfold silence, silence_buffer_size. rewrite H0, Z.mul_0_r.
  reflexivity.
Qed.

(** C9, amended. [sample_size] is the 32-bit product
    [channels_ * (depth_ / 8)]; it is zero exactly when 2^32 divides the
    product. For every object with [channels_ >= 1] and [depth_ >= 8] whose
    product stays below 2^32 the divisor is positive and neither
    [push_pcm_data] nor [push_silence] runs into undefined behaviour. With
    [channels_ = 0] or [depth_ < 8] the sample size is 0, every non-empty
    [push_pcm_data] divides by zero, and [push_silence] builds an empty
    buffer and returns without dividing. *)
Theorem sample_size_as_divisor (engine : Engine) (s : pcm2mp3) :
  uint32 (channels_ s) -> uint32 (depth_ s) ->
  (sample_size s = 0 <-> (2 ^ 32 | channels_ s * (depth_ s / 8)))
  /\ (1 <= channels_ s -> 8 <= depth_ s -> channels_ s * (depth_ s / 8) < 2 ^ 32 ->
      0 < sample_size s
      /\ (forall data f, push_pcm_data engine data s <> Undefined f)
      /\ (forall duration_ms f, push_silence engine duration_ms s <> Undefined f))
  /\ (channels_ s = 0 \/ depth_ s < 8 ->
      sample_size s = 0
      /\ (forall data, data <> [] ->
            push_pcm_data engine data s = Undefined division_by_zero)
      /\ (forall duration_ms, push_silence engine duration_ms s = Returns tt s)).
Proof.
  intros [Hc0 Hc1] [Hd0 Hd1].
  split; [| split].
  - unfold sample_size, wrap32. split; intros H.
    + apply Z.mod_divide; [lia | exact H].
    + apply Z.mod_divide in H; [exact H | lia].
  - intros Hc Hd Hprod.
    assert (Hq : 1 <= depth_ s / 8) by (apply Z.div_le_lower_bound; lia).
    assert (Hpos : 0 < sample_size s).
    { unfold sample_size, wrap32. rewrite Z.mod_small; nia. }
    split; [exact Hpos |]. split.
    + intros data f. apply push_pcm_data_defined. lia.
    + intros duration_ms f. unfold push_silence. apply push_pcm_data_defined. lia.
  - intros Hdeg.
    assert (H0 : sample_size s = 0).
    { unfold sample_size, wrap32. destruct Hdeg as [-> | Hlt].
      - reflexivity.
      - rewrite (Z.div_small (depth_ s) 8) by lia. rewrite Z.mul_0_r. reflexivity. }
    split; [exact H0 |]. split.
    + intros data Hne. apply push_pcm_data_zero_divisor; assumption.
    + intros duration_ms. unfold push_silence. rewrite silence_empty by exact H0.
      reflexivity.
Qed.

Lemma sample_size_as_divisor_witness :
  0 < sample_size default_object
  /\ (forall data f,
        push_pcm_data (engine_answering GST_FLOW_OK) data default_object <> Undefined f).
Proof.
  destruct (sample_size_as_divisor (engine_answering GST_FLOW_OK) default_object)
    as (_ & Hpos & _).
  - unfold uint32; cbn; lia.
  - unfold uint32; cbn; lia.
  - destruct Hpos as (Hp & Hpush & _).
    + cbn; lia.
    + cbn; lia.
    + cbn; lia.
    + split; [exact Hp | exact Hpush].
Defined.

(** C9 as stated fails: with [channels_ = 2^31] and [depth_ = 16] (both at
    least the stated bounds) the 32-bit product wraps to 0, and pushing one
    byte divides by zero. *)
Lemma sample_size_wraps_to_zero :
  let s := mk_pcm2mp3 32000 2147483648 16 "S16LE" (Some GST_STATE_NULL) false false 0 [] in
  uint32 (channels_ s) /\ uint32 (depth_ s)
  /\ 1 <= channels_ s /\ 8 <= depth_ s
  /\ sample_size s = 0
  /\ push_pcm_data (engine_answering GST_FLOW_OK) [x00] s = Undefined division_by_zero.
Proof.
  cbv zeta. unfold uint32. cbn [channels_ depth_].
  repeat split; try lia; reflexivity.
Qed.

(** ** The silence buffer *)

Lemma silence_num_samples_range (s : pcm2mp3) (duration_ms : Z) :
  0 <= silence_num_samples s duration_ms < 2 ^ 23.
Proof.
  unfold silence_num_samples, wrap32.
  pose proof (Z.mod_pos_bound (rate_ s * duration_ms) (2 ^ 32) ltac:(lia)) as Hr.
  split.
  - apply Z.div_pos; lia.
  - apply Z.div_lt_upper_bound; lia.
Qed.

Lemma silence_buffer_size_exact (s : pcm2mp3) (duration_ms : Z) :
  silence_buffer_size s duration_ms
  = silence_num_samples s duration_ms * sample_size s.
Proof.
  unfold silence_buffer_size, wrap64. apply Z.mod_small.
  pose proof (silence_num_samples_range s duration_ms).
  pose proof (sample_size_range s). nia.
Qed.

(** C10, amended. [push_silence] multiplies [rate_] by [duration_ms] on 32
    bits before dividing by 1000, so the sample count is
    [((rate_ * duration_ms) mod 2^32) / 1000]. While the product is below
    2^32 this is the exact [rate_ * duration_ms / 1000]; once the product
    reaches 2^32 (for [rate_ = 32000], any [duration_ms > 134217]) the
    sample count is smaller than the exact one, and the buffer size, the
    count times the sample size, is smaller than the exact size whenever the
    sample size is positive (with a zero sample size both sizes are 0). *)
Theorem silence_num_samples_wraps (s : pcm2mp3) (duration_ms : Z) :
  uint32 (rate_ s) -> uint32 duration_ms ->
  let p := rate_ s * duration_ms in
  silence_num_samples s duration_ms = (p mod 2 ^ 32) / 1000
  /\ silence_buffer_size s duration_ms
     = silence_num_samples s duration_ms * sample_size s
  /\ (p < 2 ^ 32 -> silence_num_samples s duration_ms = p / 1000)
  /\ (2 ^ 32 <= p ->
      silence_num_samples s duration_ms < p / 1000
      /\ silence_buffer_size s duration_ms <= p / 1000 * sample_size s
      /\ (0 < sample_size s ->
          silence_buffer_size s duration_ms < p / 1000 * sample_size s))
  /\ (rate_ s = 32000 -> 134217 < duration_ms -> 2 ^ 32 <= p).
Proof.
  intros [Hr0 Hr1] [Hd0 Hd1] p.
  assert (Hp0 : 0 <= p) by (unfold p; nia).
  split; [reflexivity |].
  split; [apply silence_buffer_size_exact |].
  split; [| split].
  - intros Hsmall. unfold silence_num_samples, wrap32. fold p.
    rewrite Z.mod_small by lia. reflexivity.
  - intros Hbig.
    assert (Hlt : silence_num_samples s duration_ms < p / 1000).
    { unfold silence_num_samples, wrap32. fold p.
      pose proof (Z.div_mod p (2 ^ 32) ltac:(lia)) as Hdm.
      pose proof (Z.mod_pos_bound p (2 ^ 32) ltac:(lia)) as Hm.
      assert (Hq : 1 <= p / 2 ^ 32) by (apply Z.div_le_lower_bound; lia).
      assert (Hle : p mod 2 ^ 32 <= p - 2 ^ 32) by lia.
      apply Z.lt_le_trans with ((p - 2 ^ 32) / 1000 + 1).
      - pose proof (Z.div_le_mono (p mod 2 ^ 32) (p - 2 ^ 32) 1000 ltac:(lia) Hle).
        lia.
      - replace p with ((p - 2 ^ 32) + 4294967 * 1000 + 296) at 2 by lia.
        pose proof (Z.div_le_mono ((p - 2 ^ 32) + 4294967 * 1000)
                      ((p - 2 ^ 32) + 4294967 * 1000 + 296) 1000 ltac:(lia) ltac:(lia)) as H1.
        rewrite Z.div_add in H1 by lia. lia. }
    pose proof (sample_size_range s) as Hss.
    rewrite silence_buffer_size_exact.
    split; [exact Hlt |]. split; [nia |]. intros Hpos. nia.
  - intros Hrate Hdur. unfold p. rewrite Hrate. lia.
Qed.

Lemma silence_num_samples_wraps_witness :
  silence_num_samples default_object 134218 = 8
  /\ silence_num_samples default_object 134218 < 32000 * 134218 / 1000.
Proof.
  destruct (silence_num_samples_wraps default_object 134218)
    as (Hn & _ & _ & Hbig & _).
  - unfold uint32; cbn; lia.
  - unfold uint32; lia.
  - split.
    + rewrite Hn. reflexivity.
    + destruct Hbig as (Hlt & _); [cbn; lia | exact Hlt].
Defined.

(** C10 as stated fails for the buffer size when the sample size is 0: with
    [channels_ = 0] the product 32000 * 134218 has passed 2^32, yet the
    computed buffer size and the exact one are both 0. *)
Lemma silence_buffer_size_not_smaller :
  let s := mk_pcm2mp3 32000 0 16 "S16LE" (Some GST_STATE_NULL) false false 0 [] in
  2 ^ 32 <= rate_ s * 134218
  /\ silence_buffer_size s 134218 = 0
  /\ rate_ s * 134218 / 1000 * sample_size s = 0
  /\ ~ silence_buffer_size s 134218 < rate_ s * 134218 / 1000 * sample_size s.
Proof.
  cbv zeta. split; [cbn; lia |]. split; [reflexivity |].
  split; [reflexivity |]. vm_compute. discriminate.
Qed.

Lemma silence_buffer_size_nonneg (s : pcm2mp3) (duration_ms : Z) :
  0 <= silence_buffer_size s duration_ms.
Proof. unfold silence_buffer_size, wrap64. apply Z.mod_pos_bound. lia. Qed.

Lemma silence_zero_filled (s : pcm2mp3) (duration_ms : Z) :
  Forall (fun b => b = x00) (silence s duration_ms).
Proof.
  unfold silence. generalize (Z.to_nat (silence_buffer_size s duration_ms)) as n.
  induction n as [| n IH]; cbn [repeat]; constructor; auto.
Qed.

Lemma size_silence (s : pcm2mp3) (duration_ms : Z) :
  size (silence s duration_ms) = silence_num_samples s duration_ms * sample_size s.
Proof.
  unfold silence. rewrite size_repeat by apply silence_buffer_size_nonneg.
  apply silence_buffer_size_exact.
Qed.


(** One second of silence on a default object: 64000 zero bytes, pushed as
    one buffer stamped 0 that lasts exactly one second. *)
Lemma push_silence_one_second (engine : Engine) :
  size (silence default_object 1000) = 64000
  /\ Forall (fun b => b = x00) (silence default_object 1000)
  /\ exists s' r,
       final_state (push_silence engine 1000 default_object) = Some s'
       /\ history s'
          = [app_src_push_buffer
               (mkBuffer (silence default_object 1000) 0 GST_SECOND) r]
       /\ pts_ s' = GST_SECOND.
Proof.
  assert (Hsz : size (silence default_object 1000) = 64000)
    by (rewrite size_silence; reflexivity).
  split; [exact Hsz |]. split; [apply silence_zero_filled |].
  assert (Hne : silence default_object 1000 <> []).
  { intros E. rewrite E in Hsz. discriminate Hsz. }
  assert (Hal : aligned default_object (silence default_object 1000)).
  { exists 32000. rewrite Hsz. reflexivity. }
  assert (Hd : duration_of default_object (silence default_object 1000) = GST_SECOND).
  { unfold duration_of. rewrite Hsz. reflexivity. }
  set (r := push_reply engine [] (buffer_for default_object (silence default_object 1000))).
  exists (after_push default_object (silence default_object 1000) r), r.
  split.
  - exact (push_pcm_data_aligned_state engine _ _ Hne Hal).
  - unfold after_push, buffer_for. rewrite Hd. split; reflexivity.
Qed.

(** C4. The exact sample count is not what [push_silence] computes once
    [rate_ * duration_ms] passes 2^32: on a default object (32000 Hz, one
    channel, 16 bits) [push_silence (134218)] counts 8 samples where
    [32000 * 134218 / 1000] is 4294976, and forwards a 16-byte buffer
    lasting 250 microseconds instead of 134.218 seconds of silence. *)
Theorem push_silence_product_overflow :
  silence_num_samples default_object 134218 = 8
  /\ rate_ default_object * 134218 / 1000 = 4294976
  /\ silence default_object 134218 = repeat x00 16
  /\ push_silence (engine_answering GST_FLOW_OK) 134218 default_object
     = Returns tt
         (after_push default_object (repeat x00 16) GST_FLOW_OK)
  /\ duration_of default_object (repeat x00 16) = 250000.
Proof.
  split; [reflexivity |]. split; [reflexivity |]. split; [reflexivity |].
  split; reflexivity.
Qed.

(** ** Immutability of the stream configuration *)

Lemma keeps_ret {A} (a : A) : keeps_configuration (ret a).
Proof. intros s s' H. inversion H. reflexivity. Qed.

Lemma keeps_throw {A} (e : exception) : keeps_configuration (@throw A e).
Proof. intros s s' H. inversion H. reflexivity. Qed.

Lemma keeps_undefined {A} (f : fault) : keeps_configuration (@undefined A f).
Proof. intros s s' H. discriminate H. Qed.

Lemma keeps_gets {A} (f : pcm2mp3 -> A) : keeps_configuration (gets f).
Proof. intros s s' H. inversion H. reflexivity. Qed.

Lemma keeps_modify (f : pcm2mp3 -> pcm2mp3) :
  (forall s, configuration (f s) = configuration s) ->
  keeps_configuration (modify f).
Proof. intros Hf s s' H. inversion H. apply Hf. Qed.

Lemma keeps_bind {A B} (m : M A) (k : A -> M B) :
  keeps_configuration m -> (forall a, keeps_configuration (k a)) ->
  keeps_configuration (bind m k).
Proof.
  intros Hm Hk s s' H. unfold bind in H.
  destruct (m s) as [a s1 | e s1 | f |] eqn:E.
  - rewrite (Hk a s1 s' H). apply Hm. rewrite E. reflexivity.
  - apply Hm. rewrite E. exact H.
  - discriminate H.
  - discriminate H.
Qed.

Lemma keeps_if {A} (b : bool) (m1 m2 : M A) :
  keeps_configuration m1 -> keeps_configuration m2 ->
  keeps_configuration (if b then m1 else m2).
Proof. destruct b; auto. Qed.

Lemma keeps_set_state (engine : Engine) (cur target : GstState) :
  keeps_configuration (gst_element_set_state engine cur target).
Proof. intros s s' H. inversion H. reflexivity. Qed.

Lemma keeps_join (engine : Engine) : keeps_configuration (join_processing_thread engine).
Proof.
  intros s s' H. unfold join_processing_thread in H.
  destruct (consumer_ends engine (history s)); inversion H. reflexivity.
Qed.

Lemma keeps_spawn : keeps_configuration spawn_processing_thread.
Proof.
  intros s s' H. unfold spawn_processing_thread in H.
  destruct (processing_thread_ s); inversion H. reflexivity.
Qed.

Lemma keeps_push_buffer (engine : Engine) (b : GstBuffer) :
  keeps_configuration (gst_app_src_push_buffer engine b).
Proof. intros s s' H. inversion H. reflexivity. Qed.

Lemma keeps_size_rem (a b : Z) : keeps_configuration (size_rem a b).
Proof. unfold size_rem. apply keeps_if; [apply keeps_undefined | apply keeps_ret]. Qed.

Lemma keeps_size_div (a b : Z) : keeps_configuration (size_div a b).
Proof. unfold size_div. apply keeps_if; [apply keeps_undefined | apply keeps_ret]. Qed.

Create HintDb frame.
#[local] Hint Resolve keeps_ret keeps_throw keeps_undefined keeps_gets keeps_bind
  keeps_if keeps_set_state keeps_join keeps_spawn keeps_push_buffer
  keeps_size_rem keeps_size_div : frame.

Lemma keeps_start (engine : Engine) : keeps_configuration (start engine).
Proof.
  unfold start. apply keeps_bind; [apply keeps_modify; reflexivity |].
  intros _. apply keeps_bind; [auto with frame |]. intros p.
  apply keeps_bind; [destruct p; auto with frame |].
  intros r. auto with frame.
Qed.

Lemma keeps_stop (engine : Engine) : keeps_configuration (stop engine).
Proof.
  unfold stop. apply keeps_bind; [apply keeps_modify; reflexivity |].
  intros _. apply keeps_bind; [auto with frame |]. intros joinable.
  apply keeps_bind; [auto with frame |]. intros _.
  apply keeps_bind; [auto with frame |]. intros p.
  destruct p; auto with frame.
Qed.

Lemma keeps_push_pcm_data (engine : Engine) (data : list byte) :
  keeps_configuration (push_pcm_data engine data).
Proof.
  unfold push_pcm_data. destruct data as [| b data]; [auto with frame |].
  apply keeps_bind; [auto with frame |]. intros ss.
  apply keeps_bind; [auto with frame |]. intros r.
  apply keeps_if; [auto with frame |].
  apply keeps_bind; [auto with frame |]. intros n.
  apply keeps_bind; [auto with frame |]. intros rate.
  cbv zeta. apply keeps_bind; [unfold pts_load; auto with frame |]. intros current_pts.
  apply keeps_bind; [unfold pts_fetch_add; apply keeps_modify; reflexivity |].
  intros _. apply keeps_bind; [auto with frame |]. intros r'.
  auto with frame.
Qed.

Lemma keeps_push_silence (engine : Engine) (duration_ms : Z) :
  keeps_configuration (push_silence engine duration_ms).
Proof. intros s s' H. exact (keeps_push_pcm_data engine _ s s' H). Qed.

(** C6. The stream configuration is immutable after construction: whatever
    state [start], [stop], [push_pcm_data] or [push_silence] leaves the
    object in (on return or on a throw), [rate_], [channels_], [depth_] and
    [format_] are what they were; in particular [stop] does not clear
    [format_]. *)
Theorem configuration_immutable (engine : Engine) (s : pcm2mp3) :
  (forall s', final_state (start engine s) = Some s' ->
     configuration s' = configuration s)
  /\ (forall s', final_state (stop engine s) = Some s' ->
        configuration s' = configuration s)
  /\ (forall data s', final_state (push_pcm_data engine data s) = Some s' ->
        configuration s' = configuration s)
  /\ (forall duration_ms s', final_state (push_silence engine duration_ms s) = Some s' ->
        configuration s' = configuration s)
  /\ (forall s', final_state (stop engine s) = Some s' ->
        format_ s' = format_ s /\ String.length (format_ s') = String.length (format_ s)).
Proof.
  split; [exact (keeps_start engine s) |].
  split; [exact (keeps_stop engine s) |].
  split; [exact (fun data => keeps_push_pcm_data engine data s) |].
  split; [exact (fun d => keeps_push_silence engine d s) |].
  intros s' H. pose proof (keeps_stop engine s s' H) as Hc.
  assert (Hf : format_ s' = format_ s) by exact (f_equal snd Hc).
  rewrite Hf. split; reflexivity.
Qed.

(** The scenario of the unit test: after [start] and [stop] on a default
    object the format tag still has its five characters. *)
Lemma format_after_start_stop :
  let e := engine_answering GST_FLOW_OK in
  exists s', (start e ;; stop e) default_object = Returns tt s'
             /\ format_ s' = "S16LE"%string
             /\ String.length (format_ s') = 5%nat.
Proof.
  cbv zeta. eexists. split; [vm_compute; reflexivity |].
  split; vm_compute; reflexivity.
Qed.

(** ** Stopping an object that is not running *)

Lemma construct_not_running (engine : Engine) (rate channels depth : Z)
  (format : string) (s : pcm2mp3) :
  construct engine rate channels depth format = inr s ->
  processing_thread_ s = false /\ pipeline_ s = Some GST_STATE_NULL
  /\ pts_ s = 0 /\ history s = [].
Proof.
  unfold construct.
  destruct (pipeline_new_ok engine), (factory_make_ok engine), (link_many_ok engine);
    cbn [negb]; intros H; inversion H. repeat split.
Qed.

Lemma stop_joins_thread (engine : Engine) (s s' : pcm2mp3) :
  stop engine s = Returns tt s' -> processing_thread_ s' = false.
Proof.
  unfold stop, bind, modify, gets, join_processing_thread, gst_element_set_state, ret.
  cbn. destruct (processing_thread_ s) eqn:Ht; cbn.
  - destruct (consumer_ends _ _); cbn; [| intros H; discriminate H].
    destruct (pipeline_ s); intros H; inversion H; reflexivity.
  - destruct (pipeline_ s); intros H; inversion H; cbn; exact Ht.
Qed.

(** C7. On an object whose consumer thread is not joinable (start was never
    called, or a previous stop has joined it) [stop] returns: it does not
    throw, does not run into undefined behaviour and does not block. It
    sets the stop flag, finds nothing to join (no join is added to the
    history), and asks the pipeline for the idle state once; an idle
    pipeline stays idle. Counter and configuration are untouched, and a
    second [stop] returns as well, leaving every field as the first did. *)
Theorem stop_when_not_running (engine : Engine) (s : pcm2mp3) :
  processing_thread_ s = false ->
  exists s',
    stop engine s = Returns tt s'
    /\ joins (history s') = joins (history s)
    /\ processing_thread_ s' = false
    /\ processing_stop_ s' = true
    /\ pts_ s' = pts_ s
    /\ configuration s' = configuration s
    /\ (pipeline_ s = Some GST_STATE_NULL ->
        pipeline_ s' = Some GST_STATE_NULL
        /\ history s' = history s ++
             [element_set_state GST_STATE_NULL
                (set_state_reply engine (history s) GST_STATE_NULL)]
        /\ exists s'', stop engine s' = Returns tt s'' /\ fields s'' = fields s').
Proof.
  intros Ht.
  assert (Hstop : forall x, processing_thread_ x = false ->
            stop engine x =
              match pipeline_ x with
              | Some cur =>
                  let r := set_state_reply engine (history x) GST_STATE_NULL in
                  Returns tt
                    (record_call (element_set_state GST_STATE_NULL r)
                       (set_pipeline
                          (Some (if change_failed r then cur else GST_STATE_NULL))
                          (set_processing_stop true x)))
              | None => Returns tt (set_processing_stop true x)
              end).
  { intros x Hx. unfold stop, bind, modify, gets, ret. cbn. rewrite Hx. cbn.
    destruct (pipeline_ x); reflexivity. }
  rewrite (Hstop s Ht).
  destruct (pipeline_ s) as [cur |] eqn:Hp.
  - set (r := set_state_reply engine (history s) GST_STATE_NULL).
    set (s1 := record_call (element_set_state GST_STATE_NULL r)
                 (set_pipeline (Some (if change_failed r then cur else GST_STATE_NULL))
                    (set_processing_stop true s))).
    exists s1. split; [reflexivity |].
    split.
    { change (history s1) with (history s ++ [element_set_state GST_STATE_NULL r]).
      rewrite joins_app. cbn [joins]. lia. }
    split; [exact Ht |]. split; [reflexivity |]. split; [reflexivity |].
    split; [reflexivity |].
    intros Hidle. inversion Hidle; subst cur.
    assert (Hp1 : pipeline_ s1 = Some GST_STATE_NULL).
    { unfold s1. cbn [pipeline_ record_call set_pipeline].
      destruct (change_failed r); reflexivity. }
    split; [exact Hp1 |]. split; [reflexivity |].
    assert (Ht1 : processing_thread_ s1 = false) by exact Ht.
    rewrite (Hstop s1 Ht1), Hp1. cbv zeta.
    eexists. split; [reflexivity |].
    unfold fields. cbn [rate_ channels_ depth_ format_ pipeline_ processing_thread_
                          processing_stop_ pts_ record_call set_pipeline
                          set_processing_stop].
    rewrite Hp1.
    destruct (change_failed (set_state_reply engine (history s1) GST_STATE_NULL));
      reflexivity.
  - exists (set_processing_stop true s). split; [reflexivity |].
    split; [reflexivity |]. split; [exact Ht |].
    repeat (split; [reflexivity |]). intros H; discriminate H.
Qed.

Lemma stop_when_not_running_witness :
  exists s',
    stop (engine_answering GST_FLOW_OK) default_object = Returns tt s'
    /\ joins (history s') = O
    /\ pipeline_ s' = Some GST_STATE_NULL.
Proof.
  destruct (stop_when_not_running (engine_answering GST_FLOW_OK) default_object)
    as (s' & Hrun & Hj & _ & _ & _ & _ & Hidle).
  - reflexivity.
  - exists s'. split; [exact Hrun |]. split; [exact Hj |].
    destruct Hidle as (Hp & _); [reflexivity | exact Hp].
Defined.

(** ** Concurrent pushes and the timestamp counter *)




(** C5. The counter is not read and advanced in one indivisible step:
    [pts_.load()] and [pts_ += duration] are two atomic operations, and
    another caller can run between them. With two callers pushing one sample
    each into a default object, the schedule load, load, add, add, push,
    push stamps both buffers 0, although the counter stood at 31250 before
    the second addition; the counter itself ends at 62500. *)
Theorem racing_pushes_overlap :
  let e := engine_answering GST_FLOW_OK in
  exists c1 c2 cs s',
    Concurrent.enter default_object [x00; x01] = Some c1
    /\ Concurrent.enter default_object [x02; x03] = Some c2
    /\ Concurrent.run e [0; 1; 0; 1; 0; 1]%nat [c1; c2] default_object = (cs, s')
    /\ pushed_buffers (history s')
       = [mkBuffer [x00; x01] 0 31250; mkBuffer [x02; x03] 0 31250]
    /\ pts_ s' = 62500.
Proof.
  cbv zeta. eexists. eexists. eexists. eexists.
  split; [reflexivity |]. split; [reflexivity |].
  split; [vm_compute; reflexivity |]. split; reflexivity.
Qed.

(** ** Reaching the end of the 64-bit counter

    At 1 Hz, one channel and 8 bits a byte lasts a second, so 18446744073
    bytes take a fresh object's counter to 18446744073 * 10^9, less than a
    second below 2^64; the next two one-byte buffers are then stamped on
    either side of the wrap. *)
Lemma counter_wraps_from_fresh_object (engine : Engine) (big : list byte) :
  size big = 18446744073 ->
  let s0 := mk_pcm2mp3 1 1 8 "U8" (Some GST_STATE_NULL) false false 0 [] in
  exists s1 s2 s3,
    final_state (push_pcm_data engine big s0) = Some s1
    /\ final_state (push_pcm_data engine [x00] s1) = Some s2
    /\ final_state (push_pcm_data engine [x00] s2) = Some s3
    /\ pushed_buffers (history s3)
       = [mkBuffer big 0 18446744073000000000;
          mkBuffer [x00] 18446744073000000000 1000000000;
          mkBuffer [x00] 290448384 1000000000].
Proof.
  intros Hsize s0.
  assert (Hal : forall x data, sample_size x = 1 -> aligned x data).
  { intros x data Hx. exists (size data). rewrite Hx. lia. }
  assert (Hne : big <> []) by (intros E; rewrite E in Hsize; discriminate Hsize).
  assert (Hd0 : duration_of s0 big = 18446744073000000000).
  { unfold duration_of. rewrite Hsize. reflexivity. }
  set (r1 := push_reply engine (history s0) (buffer_for s0 big)).
  set (s1 := after_push s0 big r1).
  assert (Hp1 : pts_ s1 = 18446744073000000000).
  { unfold s1, after_push. cbn [pts_ record_call set_pts]. rewrite Hd0. reflexivity. }
  set (r2 := push_reply engine (history s1) (buffer_for s1 [x00])).
  set (s2 := after_push s1 [x00] r2).
  assert (Hd1 : duration_of s1 [x00] = 1000000000) by reflexivity.
  assert (Hp2 : pts_ s2 = 290448384).
  { unfold s2, after_push. cbn [pts_ record_call set_pts]. rewrite Hd1, Hp1. reflexivity. }
  set (r3 := push_reply engine (history s2) (buffer_for s2 [x00])).
  exists s1, s2, (after_push s2 [x00] r3).
  split.
  { exact (push_pcm_data_aligned_state engine s0 big Hne (Hal s0 big eq_refl)). }
  split.
  { exact (push_pcm_data_aligned_state engine s1 [x00] ltac:(discriminate)
             (Hal s1 [x00] eq_refl)). }
  split.
  { exact (push_pcm_data_aligned_state engine s2 [x00] ltac:(discriminate)
             (Hal s2 [x00] eq_refl)). }
  change (history (after_push s2 [x00] r3))
    with ((([] ++ [app_src_push_buffer (buffer_for s0 big) r1])
             ++ [app_src_push_buffer (buffer_for s1 [x00]) r2])
            ++ [app_src_push_buffer (buffer_for s2 [x00]) r3]).
  rewrite !pushed_buffers_app. cbn [pushed_buffers app].
  unfold buffer_for. rewrite Hd0, Hd1, Hp1, Hp2.
  reflexivity.
Qed.

(** Such a buffer exists: 18446744073 zero bytes. *)
Lemma counter_wraps_on_zero_bytes (engine : Engine) :
  let s0 := mk_pcm2mp3 1 1 8 "U8" (Some GST_STATE_NULL) false false 0 [] in
  let big := repeat x00 (Z.to_nat 18446744073) in
  exists s1 s2 s3,
    final_state (push_pcm_data engine big s0) = Some s1
    /\ final_state (push_pcm_data engine [x00] s1) = Some s2
    /\ final_state (push_pcm_data engine [x00] s2) = Some s3
    /\ pushed_buffers (history s3)
       = [mkBuffer big 0 18446744073000000000;
          mkBuffer [x00] 18446744073000000000 1000000000;
          mkBuffer [x00] 290448384 1000000000].
Proof.
  exact (counter_wraps_from_fresh_object engine (repeat x00 (Z.to_nat 18446744073))
           (size_repeat x00 18446744073 ltac:(lia))).
Qed.

(** ** What concurrent pushes do keep: no advance of the counter is lost *)

Lemma total_added_update (cs : list Concurrent.caller) (i : nat)
  (c c' : Concurrent.caller) :
  nth_error cs i = Some c ->
  Concurrent.total_added (Concurrent.update cs i c')
  = Concurrent.total_added cs - Concurrent.added c + Concurrent.added c'.
Proof.
  revert i. induction cs as [| c0 cs IH]; intros i Hnth.
  - destruct i; discriminate Hnth.
  - destruct i as [| i].
    + inversion Hnth; subst c0. cbn [Concurrent.update Concurrent.total_added]. lia.
    + cbn [nth_error] in Hnth. cbn [Concurrent.update Concurrent.total_added].
      rewrite (IH i Hnth). lia.
Qed.

Lemma step_advances_counter (engine : Engine) (c c' : Concurrent.caller)
  (s s' : pcm2mp3) :
  Concurrent.step engine c s = (c', s') ->
  (pts_ s' - pts_ s - (Concurrent.added c' - Concurrent.added c)) mod 2 ^ 64 = 0.
Proof.
  unfold Concurrent.step, Concurrent.added.
  destruct (Concurrent.c_at c) eqn:Hat; intros H; inversion H; subst c' s';
    cbn [Concurrent.c_at Concurrent.c_duration Concurrent.state_of final_state
         pts_fetch_add modify gst_app_src_push_buffer pts_ set_pts record_call];
    try rewrite Hat.
  - replace (pts_ s - pts_ s - (0 - 0)) with 0 by lia. reflexivity.
  - unfold wrap64.
    pose proof (Z.div_mod (pts_ s + Concurrent.c_duration c) (2 ^ 64) ltac:(lia)) as Hdm.
    replace ((pts_ s + Concurrent.c_duration c) mod 2 ^ 64 - pts_ s
             - (Concurrent.c_duration c - 0))
      with ((- ((pts_ s + Concurrent.c_duration c) / 2 ^ 64)) * 2 ^ 64) by lia.
    apply Z.mod_mul. lia.
  - replace (pts_ s - pts_ s - (Concurrent.c_duration c - Concurrent.c_duration c))
      with 0 by lia. reflexivity.
  - replace (pts_ s - pts_ s - (Concurrent.c_duration c - Concurrent.c_duration c))
      with 0 by lia. reflexivity.
Qed.

(** Under every schedule the counter stands, modulo 2^64, at its initial
    value plus the durations of the callers that have made their addition:
    [pts_ += duration] is atomic, so callers never undo each other's
    advance. *)
Lemma no_advance_lost (engine : Engine) (schedule : list nat) :
  forall (cs cs' : list Concurrent.caller) (s s' : pcm2mp3),
    Concurrent.run engine schedule cs s = (cs', s') ->
    (pts_ s' - pts_ s
     - (Concurrent.total_added cs' - Concurrent.total_added cs)) mod 2 ^ 64 = 0.
Proof.
  induction schedule as [| i rest IH]; intros cs cs' s s' Hrun.
  - inversion Hrun; subst.
    replace (pts_ s' - pts_ s'
             - (Concurrent.total_added cs' - Concurrent.total_added cs'))
      with 0 by lia.
    reflexivity.
  - cbn [Concurrent.run] in Hrun.
    destruct (nth_error cs i) as [c |] eqn:Hnth; [| exact (IH _ _ _ _ Hrun)].
    destruct (Concurrent.step engine c s) as [c1 s1] eqn:Hstep.
    pose proof (IH _ _ _ _ Hrun) as Hrest.
    pose proof (step_advances_counter engine c c1 s s1 Hstep) as Hone.
    rewrite (total_added_update cs i c c1 Hnth) in Hrest.
    apply Z.mod_divide in Hrest; [| lia]. apply Z.mod_divide in Hone; [| lia].
    apply Z.mod_divide; [lia |].
    destruct Hrest as [k1 Hk1]. destruct Hone as [k2 Hk2].
    exists (k1 + k2). lia.
Qed.

Lemma no_advance_lost_witness :
  let e := engine_answering GST_FLOW_OK in
  let cs := [Concurrent.mkCaller [x00; x01] 31250 0 Concurrent.at_load;
             Concurrent.mkCaller [x02; x03] 31250 0 Concurrent.at_load] in
  exists cs' s',
    Concurrent.run e [0; 1; 0; 1; 0; 1]%nat cs default_object = (cs', s')
    /\ (pts_ s' - pts_ default_object
        - (Concurrent.total_added cs' - Concurrent.total_added cs)) mod 2 ^ 64 = 0.
Proof.
  intros e cs.
  destruct (Concurrent.run e [0; 1; 0; 1; 0; 1]%nat cs default_object)
    as [cs' s'] eqn:Hrun.
  exists cs', s'. split; [reflexivity |].
  exact (no_advance_lost e _ _ _ _ _ Hrun).
Defined.

(** ** Destruction *)

(** Destroying an object that is not running returns and leaves no
    pipeline behind. *)
Lemma destroy_when_not_running (engine : Engine) (s : pcm2mp3) :
  processing_thread_ s = false ->
  exists s', destroy engine s = Returns tt s' /\ pipeline_ s' = None
             /\ joins (history s') = joins (history s).
Proof.
  intros Ht. unfold destroy, stop, cleanup_pipeline, bind, modify, gets, ret. cbn.
  rewrite Ht. cbn. destruct (pipeline_ s) as [cur |] eqn:Hp; cbn; rewrite ?Hp; cbn.
  - eexists. split; [reflexivity |]. split; [reflexivity |]. cbn.
    rewrite !joins_app. cbn. lia.
  - eexists. split; [reflexivity |]. split; [exact Hp | reflexivity].
Qed.

(** * Further properties of the code *)

(** ** [push_silence] end to end *)






(** ** Sequences of pushes *)

Lemma same_configuration (s s' : pcm2mp3) :
  configuration s' = configuration s ->
  sample_size s' = sample_size s /\ rate_ s' = rate_ s.
Proof.
  intros H. unfold configuration in H.
  assert (Hr : rate_ s' = rate_ s) by exact (f_equal (fun c => fst (fst (fst c))) H).
  assert (Hc : channels_ s' = channels_ s) by exact (f_equal (fun c => snd (fst (fst c))) H).
  assert (Hd : depth_ s' = depth_ s) by exact (f_equal (fun c => snd (fst c)) H).
  unfold sample_size. rewrite Hc, Hd. split; [reflexivity | exact Hr].
Qed.

Lemma same_configuration_duration (s s' : pcm2mp3) (b : list byte) :
  configuration s' = configuration s ->
  duration_of s' b = duration_of s b /\ accepted s' b = accepted s b.
Proof.
  intros H. destruct (same_configuration s s' H) as [Hss Hr].
  unfold duration_of, accepted. rewrite Hss, Hr. split; reflexivity.
Qed.

Lemma push_pcm_data_state (engine : Engine) (s : pcm2mp3) (b : list byte) :
  sample_size s <> 0 ->
  final_state (push_pcm_data engine b s)
  = Some (if accepted s b
          then after_push s b (push_reply engine (history s) (buffer_for s b))
          else s).
Proof.
  intros Hss.
  destruct (push_pcm_data_cases engine s b)
    as [[Hnil E] | [(_ & H0 & _) | [(Hne & [_ Hm] & E) | (Hne & Hal & E)]]].
  - rewrite E, Hnil. reflexivity.
  - contradiction.
  - rewrite E. unfold accepted. destruct b as [| x l]; [congruence |].
    destruct (Z.eqb_spec (size (x :: l) mod sample_size s) 0); [contradiction | reflexivity].
  - destruct (aligned_nonzero s b Hne Hal) as [_ Hrem].
    rewrite (push_pcm_data_aligned_state engine s b Hne Hal).
    unfold accepted. destruct b as [| x l]; [congruence |].
    rewrite Hrem. reflexivity.
Qed.

Lemma push_all_from (engine : Engine) (s : pcm2mp3) (t0 : Z) (bufs : list (list byte)) :
  sample_size s <> 0 ->
  forall (cur : pcm2mp3) (total : Z),
    configuration cur = configuration s ->
    pts_ cur = wrap64 (t0 + total) ->
    exists s',
      push_all engine bufs cur = Some s'
      /\ pushed_buffers (history s')
         = pushed_buffers (history cur) ++ stamps s t0 total bufs
      /\ pts_ s' = wrap64 (t0 + total + total_duration s bufs)
      /\ configuration s' = configuration s.
Proof.
  intros Hss. induction bufs as [| b rest IH]; intros cur total Hcfg Hpts.
  - exists cur. cbn [push_all stamps total_duration].
    rewrite app_nil_r, Z.add_0_r. auto.
  - destruct (same_configuration s cur Hcfg) as [Hss' _].
    destruct (same_configuration_duration s cur b Hcfg) as [Hd Hacc].
    cbn [push_all stamps total_duration].
    rewrite (push_pcm_data_state engine cur b) by (rewrite Hss'; exact Hss).
    rewrite Hacc. destruct (accepted s b).
    + set (r := push_reply engine (history cur) (buffer_for cur b)).
      destruct (IH (after_push cur b r) (total + duration_of s b))
        as (s' & Hrun & Hpushed & Hfinal & Hcfg').
      * exact Hcfg.
      * cbn [after_push pts_ record_call set_pts]. rewrite Hd, Hpts.
        unfold wrap64. rewrite Zplus_mod_idemp_l. f_equal. lia.
      * exists s'. split; [exact Hrun |]. split; [| split; [| exact Hcfg']].
        -- rewrite Hpushed.
           change (history (after_push cur b r))
             with (history cur ++ [app_src_push_buffer (buffer_for cur b) r]).
           rewrite pushed_buffers_app, <- app_assoc. cbn [pushed_buffers app].
           unfold buffer_for. rewrite Hd, Hpts. reflexivity.
        -- rewrite Hfinal. f_equal. lia.
    + destruct (IH cur total Hcfg Hpts) as (s' & Hrun & Hpushed & Hfinal & Hcfg').
      exists s'. split; [exact Hrun |]. split; [exact Hpushed |].
      split; [rewrite Hfinal; f_equal; lia | exact Hcfg'].
Qed.

(** A caller that pushes a sequence of buffers one after the other, going
    on after every throw, hands over exactly the accepted buffers (neither
    empty nor misaligned), in order; each carries the counter's start value
    plus the durations of the accepted buffers before it, modulo 2^64.
    Empty and misaligned buffers leave no trace, and the counter ends at
    the start value plus all accepted durations, modulo 2^64. *)
Theorem push_all_stamps (engine : Engine) (s : pcm2mp3) (bufs : list (list byte)) :
  sample_size s <> 0 -> 0 <= pts_ s < 2 ^ 64 ->
  exists s',
    push_all engine bufs s = Some s'
    /\ pushed_buffers (history s')
       = pushed_buffers (history s) ++ stamps s (pts_ s) 0 bufs
    /\ pts_ s' = wrap64 (pts_ s + total_duration s bufs)
    /\ configuration s' = configuration s.
Proof.
  intros Hss Hrange.
  destruct (push_all_from engine s (pts_ s) bufs Hss s 0 eq_refl)
    as (s' & Hrun & Hpushed & Hfinal & Hcfg).
  - unfold wrap64. rewrite Z.add_0_r, Z.mod_small by exact Hrange. reflexivity.
  - exists s'. rewrite Z.add_0_r in Hfinal. auto.
Qed.

Lemma push_all_stamps_witness :
  exists s',
    push_all (engine_answering GST_FLOW_OK)
      [[x00; x01]; []; [x02]; [x03; x04; x05; x06]; [x07; x08]] default_object
    = Some s'
    /\ pushed_buffers (history s')
       = [mkBuffer [x00; x01] 0 31250;
          mkBuffer [x03; x04; x05; x06] 31250 62500;
          mkBuffer [x07; x08] 93750 31250]
    /\ pts_ s' = 125000.
Proof.
  destruct (push_all_stamps (engine_answering GST_FLOW_OK) default_object
              [[x00; x01]; []; [x02]; [x03; x04; x05; x06]; [x07; x08]])
    as (s' & Hrun & Hpushed & Hfinal & _).
  - discriminate.
  - cbn; lia.
  - exists s'. split; [exact Hrun |]. split; [exact Hpushed | exact Hfinal].
Defined.

(** ** Durations under splitting *)

Lemma scale_range (val num denom : Z) :
  0 <= val -> 0 <= num -> 0 <= denom ->
  0 <= gst_util_uint64_scale val num denom <= G_MAXUINT64.
Proof.
  intros Hv Hn Hd. unfold gst_util_uint64_scale, G_MAXUINT64.
  destruct (Z.eqb_spec denom 0); [lia |].
  assert (0 <= val * num / denom) by (apply Z.div_pos; nia).
  destruct (Z.leb_spec (val * num / denom) (2 ^ 64 - 1)); lia.
Qed.

Lemma aligned_app_samples (s : pcm2mp3) (b1 b2 : list byte) :
  sample_size s <> 0 -> aligned s b1 -> aligned s b2 ->
  size (b1 ++ b2) / sample_size s
  = size b1 / sample_size s + size b2 / sample_size s.
Proof.
  intros Hss [k1 H1] [k2 H2].
  unfold size in *. rewrite length_app, Nat2Z.inj_add, H1, H2.
  rewrite <- Z.mul_add_distr_r, !Z.div_mul by exact Hss. reflexivity.
Qed.

(** Pushing a buffer in two aligned pieces instead of one: the two
    durations add up to the duration of the whole or to one nanosecond
    less, never more; when the rate divides 10^9 nothing is lost. (Rate
    positive, whole duration below 2^64.) *)
Theorem duration_of_split (s : pcm2mp3) (b1 b2 : list byte) :
  0 < rate_ s -> sample_size s <> 0 -> aligned s b1 -> aligned s b2 ->
  size (b1 ++ b2) / sample_size s * GST_SECOND / rate_ s < 2 ^ 64 ->
  duration_of s b1 + duration_of s b2 <= duration_of s (b1 ++ b2)
    <= duration_of s b1 + duration_of s b2 + 1
  /\ (GST_SECOND mod rate_ s = 0 ->
      duration_of s (b1 ++ b2) = duration_of s b1 + duration_of s b2).
Proof.
  intros Hrate Hss Hal1 Hal2 Hfit.
  pose proof (sample_size_range s) as Hssr.
  rewrite (aligned_app_samples s b1 b2 Hss Hal1 Hal2) in Hfit.
  set (n1 := size b1 / sample_size s) in *.
  set (n2 := size b2 / sample_size s) in *.
  assert (Hn1 : 0 <= n1) by (apply Z.div_pos; [apply size_nonneg | lia]).
  assert (Hn2 : 0 <= n2) by (apply Z.div_pos; [apply size_nonneg | lia]).
  assert (Hmono : forall a b, 0 <= a <= b -> a * GST_SECOND / rate_ s <= b * GST_SECOND / rate_ s).
  { intros a b Hab. apply Z.div_le_mono; [lia | unfold GST_SECOND; nia]. }
  assert (Hd1 : duration_of s b1 = n1 * GST_SECOND / rate_ s).
  { unfold duration_of. fold n1. apply scale_exact; [exact Hrate |].
    pose proof (Hmono n1 (n1 + n2) ltac:(lia)). lia. }
  assert (Hd2 : duration_of s b2 = n2 * GST_SECOND / rate_ s).
  { unfold duration_of. fold n2. apply scale_exact; [exact Hrate |].
    pose proof (Hmono n2 (n1 + n2) ltac:(lia)). lia. }
  assert (Hd : duration_of s (b1 ++ b2) = (n1 + n2) * GST_SECOND / rate_ s).
  { unfold duration_of. rewrite (aligned_app_samples s b1 b2 Hss Hal1 Hal2).
    fold n1. fold n2. apply scale_exact; assumption. }
  rewrite Hd, Hd1, Hd2.
  pose proof (Z.div_mod (n1 * GST_SECOND) (rate_ s) ltac:(lia)) as E1.
  pose proof (Z.mod_pos_bound (n1 * GST_SECOND) (rate_ s) Hrate) as B1.
  pose proof (Z.div_mod (n2 * GST_SECOND) (rate_ s) ltac:(lia)) as E2.
  pose proof (Z.mod_pos_bound (n2 * GST_SECOND) (rate_ s) Hrate) as B2.
  pose proof (Z.div_mod ((n1 + n2) * GST_SECOND) (rate_ s) ltac:(lia)) as E.
  pose proof (Z.mod_pos_bound ((n1 + n2) * GST_SECOND) (rate_ s) Hrate) as B.
  split; [split; nia |].
  intros Hdiv. apply Z.mod_divide in Hdiv; [| lia]. destruct Hdiv as [g Hg].
  rewrite Hg. rewrite !Z.mul_assoc, !Z.div_mul by lia. lia.
Qed.

Lemma duration_of_split_witness :
  duration_of default_object ([x00; x01] ++ [x02; x03; x04; x05])
  = duration_of default_object [x00; x01]
    + duration_of default_object [x02; x03; x04; x05].
Proof.
  destruct (duration_of_split default_object [x00; x01] [x02; x03; x04; x05])
    as (_ & Hexact).
  - cbn; lia.
  - discriminate.
  - exists 1. reflexivity.
  - exists 2. reflexivity.
  - vm_compute. reflexivity.
  - apply Hexact. reflexivity.
Defined.

(** ** The counter stays on 64 bits and goes back only when it wraps *)

(** After a valid push on an object whose counter is a 64-bit value and
    whose rate is not negative, the counter is again a 64-bit value, and it
    is at least its old value exactly when counter + duration stays below
    2^64. *)
Theorem counter_monotone_iff (engine : Engine) (s : pcm2mp3) (data : list byte) :
  data <> [] -> aligned s data -> 0 <= rate_ s -> 0 <= pts_ s < 2 ^ 64 ->
  exists s',
    final_state (push_pcm_data engine data s) = Some s'
    /\ 0 <= pts_ s' < 2 ^ 64
    /\ 0 <= duration_of s data < 2 ^ 64
    /\ (pts_ s <= pts_ s' <-> pts_ s + duration_of s data < 2 ^ 64).
Proof.
  intros Hne Hal Hrate Hpts.
  destruct (aligned_nonzero s data Hne Hal) as [Hss _].
  pose proof (sample_size_range s) as Hssr.
  assert (Hd : 0 <= duration_of s data <= G_MAXUINT64).
  { unfold duration_of. apply scale_range;
      [apply Z.div_pos; [apply size_nonneg | lia] | unfold GST_SECOND; lia | exact Hrate]. }
  unfold G_MAXUINT64 in Hd.
  exists (after_push s data (push_reply engine (history s) (buffer_for s data))).
  split; [exact (push_pcm_data_aligned_state engine s data Hne Hal) |].
  cbn [after_push pts_ record_call set_pts]. unfold wrap64.
  pose proof (Z.mod_pos_bound (pts_ s + duration_of s data) (2 ^ 64) ltac:(lia)) as Hm.
  split; [exact Hm |]. split; [lia |].
  split.
  - intros Hle.
    destruct (Z_lt_ge_dec (pts_ s + duration_of s data) (2 ^ 64)) as [Hlt | Hge];
      [exact Hlt | exfalso].
    assert (E : (pts_ s + duration_of s data) mod 2 ^ 64
                = pts_ s + duration_of s data - 2 ^ 64).
    { symmetry. apply Z.mod_unique with (q := 1); lia. }
    lia.
  - intros Hlt. rewrite Z.mod_small by lia. lia.
Qed.

Lemma counter_monotone_iff_witness :
  exists s',
    final_state (push_pcm_data (engine_answering GST_FLOW_OK) [x00; x01]
                   (set_pts (2 ^ 64 - 2) default_object)) = Some s'
    /\ ~ 2 ^ 64 - 2 <= pts_ s'.
Proof.
  destruct (counter_monotone_iff (engine_answering GST_FLOW_OK)
              (set_pts (2 ^ 64 - 2) default_object) [x00; x01])
    as (s' & Hrun & _ & _ & Hiff).
  - discriminate.
  - exists 1. reflexivity.
  - cbn; lia.
  - cbn; lia.
  - exists s'. split; [exact Hrun |].
    intros Hle. apply Hiff in Hle. vm_compute in Hle. discriminate Hle.
Defined.

(** ** The life cycle: [start], [stop] and the destructor *)

Lemma stop_outcome (engine : Engine) (s : pcm2mp3) :
  stop engine s
  = let s0 := set_processing_stop true s in
    let after_join :=
      if processing_thread_ s
      then if consumer_ends engine (history s)
           then Some (record_call thread_join (set_processing_thread false s0))
           else None
      else Some s0 in
    match after_join with
    | None => Hangs
    | Some s1 =>
        match pipeline_ s with
        | Some cur =>
            let r := set_state_reply engine (history s1) GST_STATE_NULL in
            Returns tt
              (record_call (element_set_state GST_STATE_NULL r)
                 (set_pipeline
                    (Some (if change_failed r then cur else GST_STATE_NULL)) s1))
        | None => Returns tt s1
        end
    end.
Proof.
  unfold stop, bind, modify, gets, ret, join_processing_thread, gst_element_set_state.
  cbn. destruct (processing_thread_ s); cbn.
  - destruct (consumer_ends engine (history s)); cbn; [| reflexivity].
    destruct (pipeline_ s); reflexivity.
  - destruct (pipeline_ s); reflexivity.
Qed.

Lemma start_outcome (engine : Engine) (s : pcm2mp3) :
  start engine s
  = let s0 := set_processing_stop false s in
    match pipeline_ s with
    | None => Throws StateTransitionError s0
    | Some cur =>
        let r := set_state_reply engine (history s) GST_STATE_PLAYING in
        let s1 := record_call (element_set_state GST_STATE_PLAYING r)
                    (set_pipeline
                       (Some (if change_failed r then cur else GST_STATE_PLAYING)) s0) in
        if change_failed r then Throws StateTransitionError s1
        else if processing_thread_ s then Undefined terminate_called
        else Returns tt (record_call thread_start (set_processing_thread true s1))
    end.
Proof.
  unfold start, bind, modify, gets, ret, throw, spawn_processing_thread,
    gst_element_set_state.
  cbn. destruct (pipeline_ s); cbn; [| reflexivity].
  destruct (change_failed _); cbn; [reflexivity |].
  destruct (processing_thread_ s); reflexivity.
Qed.

(** [start] on an object that already runs a consumer thread never
    returns: when the engine accepts the state change, the assignment to
    the joinable [std::thread] ends the process; otherwise [start] throws.
    In particular a second [start] after one that returned never returns. *)
Theorem start_while_running (engine : Engine) (s : pcm2mp3) :
  processing_thread_ s = true ->
  (forall s', start engine s <> Returns tt s')
  /\ (forall cur,
        pipeline_ s = Some cur ->
        change_failed (set_state_reply engine (history s) GST_STATE_PLAYING) = false ->
        start engine s = Undefined terminate_called)
  /\ (forall s0 s1, start engine s0 = Returns tt s1 ->
        forall s2, start engine s1 <> Returns tt s2).
Proof.
  intros Ht.
  assert (Hnever : forall x, processing_thread_ x = true ->
                     forall x', start engine x <> Returns tt x').
  { intros x Hx x'. rewrite start_outcome. cbv zeta.
    destruct (pipeline_ x); [| discriminate].
    destruct (change_failed _); [discriminate |]. rewrite Hx. discriminate. }
  split; [exact (Hnever s Ht) |]. split.
  - intros cur Hp Hok. rewrite start_outcome. cbv zeta. rewrite Hp, Hok, Ht. reflexivity.
  - intros s0 s1 Hstart. apply Hnever.
    rewrite start_outcome in Hstart. cbv zeta in Hstart.
    destruct (pipeline_ s0); [| discriminate Hstart].
    destruct (change_failed _); [discriminate Hstart |].
    destruct (processing_thread_ s0); [discriminate Hstart |].
    inversion Hstart. reflexivity.
Qed.

Lemma start_while_running_witness :
  start (engine_answering GST_FLOW_OK) (set_processing_thread true default_object)
  = Undefined terminate_called.
Proof.
  exact (proj1 (proj2 (start_while_running (engine_answering GST_FLOW_OK)
                         (set_processing_thread true default_object) eq_refl))
           GST_STATE_NULL eq_refl eq_refl).
Defined.






(** ** What the life cycle and the pushes leave to each other *)

Lemma kept_bind {A B C} (f : pcm2mp3 -> C) (m : M A) (k : A -> M B) :
  keeps f m -> (forall a, keeps f (k a)) -> keeps f (bind m k).
Proof.
  intros Hm Hk s s' H. unfold bind in H.
  destruct (m s) as [a s1 | e s1 | x |] eqn:E.
  - rewrite (Hk a s1 s' H). apply Hm. rewrite E. reflexivity.
  - apply Hm. rewrite E. exact H.
  - discriminate H.
  - discriminate H.
Qed.

Lemma kept_pure {A C} (f : pcm2mp3 -> C) (m : M A) :
  (forall s, final_state (m s) = Some s \/ final_state (m s) = None) -> keeps f m.
Proof.
  intros Hm s s' H. destruct (Hm s) as [E | E]; rewrite E in H.
  - inversion H. reflexivity.
  - discriminate H.
Qed.

Lemma kept_modify {C} (f : pcm2mp3 -> C) (g : pcm2mp3 -> pcm2mp3) :
  (forall s, f (g s) = f s) -> keeps f (modify g).
Proof. intros Hg s s' H. inversion H. apply Hg. Qed.

Lemma stream_position_record_call (c : call) (s : pcm2mp3) :
  pushed_buffers [c] = [] ->
  stream_position (record_call c s) = stream_position s.
Proof.
  intros Hc. unfold stream_position. cbn [pts_ history record_call].
  rewrite pushed_buffers_app, Hc, app_nil_r. reflexivity.
Qed.

Lemma kept_set_state (engine : Engine) (cur target : GstState) :
  keeps stream_position (gst_element_set_state engine cur target).
Proof.
  intros s s' H. inversion H.
  rewrite stream_position_record_call by reflexivity. reflexivity.
Qed.

Lemma kept_join (engine : Engine) :
  keeps stream_position (join_processing_thread engine).
Proof.
  intros s s' H. unfold join_processing_thread in H.
  destruct (consumer_ends engine (history s)); inversion H.
  rewrite stream_position_record_call by reflexivity. reflexivity.
Qed.

Lemma kept_spawn : keeps stream_position spawn_processing_thread.
Proof.
  intros s s' H. unfold spawn_processing_thread in H.
  destruct (processing_thread_ s); inversion H.
  rewrite stream_position_record_call by reflexivity. reflexivity.
Qed.

Lemma kept_start (engine : Engine) : keeps stream_position (start engine).
Proof.
  unfold start. apply kept_bind; [apply kept_modify; reflexivity |]. intros _.
  apply kept_bind; [apply kept_pure; intros s; left; reflexivity |]. intros p.
  apply kept_bind.
  - destruct p; [apply kept_set_state | apply kept_pure; intros s; left; reflexivity].
  - intros r. destruct (change_failed r);
      [apply kept_pure; intros s; left; reflexivity | apply kept_spawn].
Qed.

Lemma kept_stop (engine : Engine) : keeps stream_position (stop engine).
Proof.
  unfold stop. apply kept_bind; [apply kept_modify; reflexivity |]. intros _.
  apply kept_bind; [apply kept_pure; intros s; left; reflexivity |]. intros joinable.
  apply kept_bind.
  - destruct joinable; [apply kept_join | apply kept_pure; intros s; left; reflexivity].
  - intros _. apply kept_bind; [apply kept_pure; intros s; left; reflexivity |].
    intros p. destruct p; [| apply kept_pure; intros s; left; reflexivity].
    apply kept_bind; [apply kept_set_state |].
    intros _. apply kept_pure; intros s; left; reflexivity.
Qed.

Lemma kept_cleanup (engine : Engine) : keeps stream_position (cleanup_pipeline engine).
Proof.
  unfold cleanup_pipeline.
  apply kept_bind; [apply kept_pure; intros s; left; reflexivity |].
  intros p. destruct p; [| apply kept_pure; intros s; left; reflexivity].
  apply kept_bind; [apply kept_set_state |].
  intros _. apply kept_modify. reflexivity.
Qed.

(** [start], [stop] and the destructor never touch the stream: whatever
    state they leave (on return or on a throw), the timestamp counter is
    what it was, so a restart does not reset timestamps, and no buffer has
    been handed to the Source stage. *)
Theorem life_cycle_keeps_stream (engine : Engine) (s s' : pcm2mp3) :
  final_state (start engine s) = Some s'
  \/ final_state (stop engine s) = Some s'
  \/ final_state (destroy engine s) = Some s' ->
  pts_ s' = pts_ s
  /\ pushed_buffers (history s') = pushed_buffers (history s).
Proof.
  intros H.
  assert (Hpos : stream_position s' = stream_position s).
  { destruct H as [H | [H | H]].
    - exact (kept_start engine s s' H).
    - exact (kept_stop engine s s' H).
    - unfold destroy in H.
      exact (kept_bind stream_position (stop engine) (fun _ => cleanup_pipeline engine)
               (kept_stop engine) (fun _ => kept_cleanup engine) s s' H). }
  unfold stream_position in Hpos. inversion Hpos. split; reflexivity.
Qed.

Lemma life_cycle_keeps_stream_witness :
  exists s',
    final_state (stop (engine_answering GST_FLOW_OK) (set_pts 31250 default_object))
    = Some s'
    /\ pts_ s' = 31250.
Proof.
  destruct (final_state (stop (engine_answering GST_FLOW_OK)
                           (set_pts 31250 default_object)))
    as [s' |] eqn:Hrun; [| discriminate Hrun].
  exists s'. split; [reflexivity |].
  exact (proj1 (life_cycle_keeps_stream (engine_answering GST_FLOW_OK)
                  (set_pts 31250 default_object) s' (or_intror (or_introl Hrun)))).
Defined.



(** ** The consumer loop *)

Lemma callbacks_app (e1 e2 : list consumer_event) :
  callbacks (e1 ++ e2) = callbacks e1 ++ callbacks e2.
Proof.
  induction e1 as [| e e1 IH]; [reflexivity |].
  destruct e; cbn [callbacks app]; rewrite IH; reflexivity.
Qed.

Lemma unrefs_app (e1 e2 : list consumer_event) :
  unrefs (e1 ++ e2) = (unrefs e1 + unrefs e2)%nat.
Proof.
  induction e1 as [| e e1 IH]; [reflexivity |].
  destruct e; cbn [unrefs app]; rewrite IH; reflexivity.
Qed.

(** What the consumer thread delivers. The callback is called once for
    every sample pulled and mapped before the loop first sees the stop
    flag, in the order pulled and with the sample's bytes; null pulls and
    samples that fail to map call nothing. Every sample pulled, mapped or
    not, is released exactly once. The loop ends exactly when an iteration
    sees the stop flag, and nothing after that iteration has any effect. *)
Theorem consumer_loop_delivers (script : list iteration) :
  callbacks (fst (consumer_loop script)) = mapped_bytes (before_stop script)
  /\ unrefs (fst (consumer_loop script)) = samples (before_stop script)
  /\ (snd (consumer_loop script) = true <-> exists it, In it script /\ stop_seen it = true)
  /\ fst (consumer_loop script) = fst (consumer_loop (before_stop script))
  /\ (forall pre it post,
        stop_seen it = true ->
        consumer_loop (pre ++ it :: post) = consumer_loop (pre ++ [it])).
Proof.
  split; [| split; [| split; [| split]]].
  - induction script as [| it rest IH]; [reflexivity |].
    cbn [consumer_loop before_stop]. destruct (stop_seen it); [reflexivity |].
    destruct (consumer_loop rest) as [events ended]. cbn [fst] in *.
    rewrite callbacks_app, IH. cbn [mapped_bytes].
    destruct (pull it) as [| [bytes |]]; reflexivity.
  - induction script as [| it rest IH]; [reflexivity |].
    cbn [consumer_loop before_stop]. destruct (stop_seen it); [reflexivity |].
    destruct (consumer_loop rest) as [events ended]. cbn [fst] in *.
    rewrite unrefs_app, IH. cbn [samples].
    destruct (pull it) as [| [bytes |]]; reflexivity.
  - induction script as [| it rest IH].
    + cbn. split; [discriminate | intros (it & [] & _)].
    + cbn [consumer_loop]. destruct (stop_seen it) eqn:Hs.
      * cbn [snd]. split; [| reflexivity]. intros _. exists it. split; [left; reflexivity | exact Hs].
      * destruct (consumer_loop rest) as [events ended]. cbn [snd] in *.
        rewrite IH. split.
        -- intros (it' & Hin & Hs'). exists it'. split; [right; exact Hin | exact Hs'].
        -- intros (it' & [E | Hin] & Hs'); [subst it'; congruence |].
           exists it'. split; assumption.
  - induction script as [| it rest IH]; [reflexivity |].
    cbn [consumer_loop before_stop]. destruct (stop_seen it) eqn:Hs; [reflexivity |].
    cbn [consumer_loop]. rewrite Hs.
    destruct (consumer_loop rest) as [events ended].
    destruct (consumer_loop (before_stop rest)) as [events' ended'].
    cbn [fst] in *. rewrite IH. reflexivity.
  - intros pre it post Hs. induction pre as [| p pre IH].
    + cbn [app consumer_loop]. rewrite Hs. reflexivity.
    + cbn [app consumer_loop]. rewrite IH. reflexivity.
Qed.

(** ** The unit test *)

(** The test case cannot pass, whatever the engine does: when it reaches
    its last [REQUIRE], [format_] still has the five characters it was
    constructed with, so [format_.size() == 0] fails. With an engine that
    builds, starts and lets the consumer end, that is where it fails. *)
Theorem test_case_never_passes (engine : Engine) :
  test_case engine <> test_passed
  /\ test_case engine <> require_failed 1
  /\ (pipeline_new_ok engine = true -> factory_make_ok engine = true ->
      link_many_ok engine = true ->
      change_failed (set_state_reply engine [] GST_STATE_PLAYING) = false ->
      (forall h, consumer_ends engine h = true) ->
      test_case engine = require_failed 2).
Proof.
  assert (Hfmt : forall s0, construct engine 32000 1 16 "S16LE" = inr s0 ->
                   format_ s0 = "S16LE"%string /\ pipeline_ s0 = Some GST_STATE_NULL
                   /\ processing_thread_ s0 = false /\ history s0 = []).
  { intros s0. unfold construct.
    destruct (pipeline_new_ok engine), (factory_make_ok engine), (link_many_ok engine);
      cbn [negb]; intros H; inversion H. repeat split. }
  assert (Hkeep : forall (m : M unit) s0 s1 a, keeps_configuration m ->
                    m s0 = Returns a s1 -> format_ s1 = format_ s0).
  { intros m s0 s1 a Hm Hrun.
    assert (Hc : configuration s1 = configuration s0)
      by (apply Hm; rewrite Hrun; reflexivity).
    exact (f_equal snd Hc). }
  unfold test_case.
  destruct (construct engine 32000 1 16 "S16LE") as [e | s0] eqn:Hc.
  - split; [discriminate |]. split; [discriminate |].
    intros H1 H2 H3 _ _. unfold construct in Hc. rewrite H1, H2, H3 in Hc.
    discriminate Hc.
  - destruct (Hfmt s0 eq_refl) as (Hf0 & Hp0 & Ht0 & Hh0).
    destruct (start engine s0) as [[] s1 | e s1 | f |] eqn:Hstart.
    + rewrite (Hkeep _ _ _ _ (keeps_start engine) Hstart), Hf0. cbn [String.length Nat.eqb].
      destruct (stop engine s1) as [[] s2 | e s2 | f |] eqn:Hstop.
      * rewrite (Hkeep _ _ _ _ (keeps_stop engine) Hstop),
          (Hkeep _ _ _ _ (keeps_start engine) Hstart), Hf0.
        cbn [String.length Nat.eqb].
        split; [discriminate |]. split; [discriminate | reflexivity].
      * split; [discriminate |]. split; [discriminate |]. intros _ _ _ _ _.
        rewrite stop_outcome in Hstop. cbv zeta in Hstop.
        destruct (if processing_thread_ s1 then _ else _); [| discriminate Hstop].
        destruct (pipeline_ s1); discriminate Hstop.
      * split; [discriminate |]. split; [discriminate |]. intros _ _ _ _ _.
        rewrite stop_outcome in Hstop. cbv zeta in Hstop.
        destruct (if processing_thread_ s1 then _ else _); [| discriminate Hstop].
        destruct (pipeline_ s1); discriminate Hstop.
      * split; [discriminate |]. split; [discriminate |]. intros _ _ _ _ Hends.
        rewrite stop_outcome in Hstop. cbv zeta in Hstop.
        rewrite Hends in Hstop.
        destruct (processing_thread_ s1); destruct (pipeline_ s1); discriminate Hstop.
    + split; [discriminate |]. split; [discriminate |]. intros _ _ _ Hok _.
      rewrite start_outcome in Hstart. cbv zeta in Hstart.
      rewrite Hp0, Hh0, Hok, Ht0 in Hstart. discriminate Hstart.
    + split; [discriminate |]. split; [discriminate |]. intros _ _ _ Hok _.
      rewrite start_outcome in Hstart. cbv zeta in Hstart.
      rewrite Hp0, Hh0, Hok, Ht0 in Hstart. discriminate Hstart.
    + split; [discriminate |]. split; [discriminate |]. intros _ _ _ Hok _.
      rewrite start_outcome in Hstart. cbv zeta in Hstart.
      rewrite Hp0, Hh0, Hok, Ht0 in Hstart. discriminate Hstart.
Qed.

(** ** A caller alone *)

